(** * wot_clanreservebot: the credential manager, the reserve tracker and
      the poll cycle of [src/bot/bot.py]

    A shallow embedding of [WargamingAuth] and [DiscordBot].  Python
    objects become records, [set] of [str] becomes [gset string], and a
    coroutine becomes a function in a state-and-exception monad whose state
    is the bot (credential, announced set, the two JSON files, and the
    trace of outbound effects).  What the outside world answers during one
    call (clock readings, HTTP replies, whether a file write or a channel
    lookup succeeds) is passed in as a record.

    Conventions.
    - Epoch times are integers ([Z]); the source mixes [int] and [float]
      seconds, and every comparison it makes is between such numbers.
    - Text is [string] (bytes); [Py.int] and [Py.split] follow CPython on
      ASCII text. *)

From Stdlib Require Import ZArith Ascii String List Bool Lia.
From Stdlib Require Import DecimalString DecimalPos DecimalN DecimalZ.
From stdpp Require Import base decidable option list gmap strings.

Local Open Scope string_scope.
Local Open Scope Z_scope.

(* ===================================================================== *)
(** ** Python text primitives *)
(* ===================================================================== *)

Module Py.

(** [c in s] for a one-character [c]. *)
Fixpoint contains (c : ascii) (s : string) : bool :=
  match s with
  | EmptyString => false
  | String a s' => if Ascii.eqb a c then true else contains c s'
  end.

(** [s.split(sep)] for a one-character separator: every occurrence of
    [sep] cuts, so the result has one more segment than [s] has
    separators and is never empty. *)
Fixpoint split (sep : ascii) (s : string) : list string :=
  match s with
  | EmptyString => [EmptyString]
  | String a s' =>
      if Ascii.eqb a sep then EmptyString :: split sep s'
      else match split sep s' with
           | seg :: segs => String a seg :: segs
           | [] => [String a EmptyString]
           end
  end.

(** [sep.join(parts)]. *)
Fixpoint join (sep : string) (parts : list string) : string :=
  match parts with
  | [] => EmptyString
  | [p] => p
  | p :: ps => p +:+ sep +:+ join sep ps
  end.

(** ASCII white space as [int()] strips it: TAB..CR and SPACE. *)
Definition is_space (c : ascii) : bool :=
  let n := Z.of_N (N_of_ascii c) in
  ((9 <=? n) && (n <=? 13)) || (n =? 32).

Definition digit_of (c : ascii) : option Z :=
  let n := Z.of_N (N_of_ascii c) in
  if (48 <=? n) && (n <=? 57) then Some (n - 48) else None.

Fixpoint all_space (s : string) : bool :=
  match s with
  | EmptyString => true
  | String c s' => is_space c && all_space s'
  end.

Fixpoint lstrip (s : string) : string :=
  match s with
  | EmptyString => EmptyString
  | String c s' => if is_space c then lstrip s' else s
  end.

(** The digits of a decimal literal once one digit has been read; [acc]
    is the value so far.  A single underscore may sit between two digits;
    trailing white space ends the literal. *)
Fixpoint int_digits (acc : Z) (s : string) : option Z :=
  match s with
  | EmptyString => Some acc
  | String c s' =>
      match digit_of c with
      | Some d => int_digits (10 * acc + d) s'
      | None =>
          if Ascii.eqb c "_" then
            match s' with
            | String c' s'' =>
                match digit_of c' with
                | Some d => int_digits (10 * acc + d) s''
                | None => None
                end
            | EmptyString => None
            end
          else if all_space s then Some acc
          else None
      end
  end.

Definition int_body (s : string) : option Z :=
  match s with
  | String c s' =>
      match digit_of c with
      | Some d => int_digits d s'
      | None => None
      end
  | EmptyString => None
  end.

(** [int(s)] in base ten on ASCII text; [None] stands for [ValueError].
    (CPython also reads other Unicode digits and spaces, and newer
    versions refuse literals of more than 4300 digits.) *)
Definition int (s : string) : option Z :=
  match lstrip s with
  | String c r =>
      if Ascii.eqb c "-" then Z.opp <$> int_body r
      else if Ascii.eqb c "+" then int_body r
      else int_body (String c r)
  | EmptyString => None
  end.

(** [str(n)] for an [int]. *)
Definition str (n : Z) : string := NilZero.string_of_int (Z.to_int n).

(** Truthiness of an optional string: [None] and [''] are falsy. *)
Definition truthy (o : option string) : bool :=
  match o with
  | Some (String _ _) => true
  | _ => false
  end.

End Py.

(* ===================================================================== *)
(** ** Data *)
(* ===================================================================== *)

(** What a Python call can raise here. *)
Inductive exn : Type :=
| IndexError
| ValueError
| KeyError (key : string)
| ConnectionError
| JSONDecodeError
| DiscordError
| TokenRefreshFailed
| OSError
| OverflowError
| UnknownTimeZoneError.

Inductive result (A : Type) : Type :=
| Ok (a : A)
| Raise (e : exn).
Arguments Ok {A} a.
Arguments Raise {A} e.

(** The answer of one HTTP request: [requests] raises, or [response.json()]
    raises, or there is a status code and a decoded body. *)
Inductive http_reply (A : Type) : Type :=
| Unreachable
| Undecodable (status_code : Z)
| Reply (status_code : Z) (body : A).
Arguments Unreachable {A}.
Arguments Undecodable {A} status_code.
Arguments Reply {A} status_code body.

(** [data["data"]] of the prolongate answer; [None] is an absent key. *)
Record refresh_data : Type := {
  d_access_token : option string;
  d_refresh_token : option string;
  d_expires_at : option Z
}.

Record refresh_body : Type := {
  r_status : option string;
  r_data : option refresh_data
}.

(** The credential held by [WargamingAuth]; the same triple is the content
    of [TOKEN_FILE]. *)
Record WargamingAuth : Type := {
  access_token : option string;
  refresh_token : option string;
  expires_at : option Z
}.

(** Query parameters of the OAuth redirect ([request.query.get]). *)
Record request : Type := {
  q_status : option string;
  q_access_token : option string;
  q_refresh_token : option string;
  q_account_id : option string;
  q_nickname : option string;
  q_expires_at : option string
}.

Record response : Type := {
  text : string;
  http_status : Z
}.

Inductive admin_message : Type :=
| ExpiryWarning (hours : Z) (url : string)
| NeedsReauthorization (url : string)
| Authorized (nickname : option string).

Inductive log_record : Type :=
| InfoSavedTokens
| InfoSavedReserves
| InfoCleanedUp (count : nat)
| InfoPleaseVisit (url : string)
| InfoSentAdminMessage
| InfoCallbackParams (req : request)
| InfoCallbackTokens (req : request)
| ErrorSavingTokens
| ErrorSavingReserves
| ErrorAdminMessage
| ErrorRefreshingToken (e : exn)
| ErrorInvalidCallback
| ErrorProcessingCallback (e : exn)
| ErrorCycle (e : exn).

(** A JSON file on disk: not there, there but not decodable (empty after
    [open(..., 'w')] truncated it, or cut short), or holding a value. *)
Inductive file (A : Type) : Type :=
| NoFile
| Broken
| Content (content : A).
Arguments NoFile {A}.
Arguments Broken {A}.
Arguments Content {A} content.

(** Where a write that fails does so: before the file is touched
    ([os.makedirs] or [open] raises), after [open] has truncated it
    ([json.dump] raises), or when the file is closed. *)
Inductive failure_point : Type :=
| AtOpen
| AtDump
| AtClose.

(** Outbound effects, in the order they are attempted. *)
Inductive event : Type :=
| PostProlongate (token : option string)
| GetReserves (token : option string)
| WriteTokens (a : WargamingAuth)
| WriteReserves (ids : gset string)
| SendAdmin (m : admin_message)
| ChannelSend (message : string)
| Log (r : log_record).

(** The bot: the credential, the announced set, the two files and the
    trace. *)
Record DiscordBot : Type := {
  auth : WargamingAuth;
  last_active_reserves : gset string;
  token_file : file WargamingAuth;
  reserves_state_file : file (gset string);
  trace : list event
}.

Definition with_auth (a : WargamingAuth) (b : DiscordBot) : DiscordBot :=
  {| auth := a; last_active_reserves := last_active_reserves b;
     token_file := token_file b; reserves_state_file := reserves_state_file b;
     trace := trace b |}.

Definition with_last_active_reserves (s : gset string) (b : DiscordBot)
  : DiscordBot :=
  {| auth := auth b; last_active_reserves := s;
     token_file := token_file b; reserves_state_file := reserves_state_file b;
     trace := trace b |}.

Definition with_token_file (f : file WargamingAuth) (b : DiscordBot)
  : DiscordBot :=
  {| auth := auth b; last_active_reserves := last_active_reserves b;
     token_file := f; reserves_state_file := reserves_state_file b;
     trace := trace b |}.

Definition with_reserves_state_file (f : file (gset string)) (b : DiscordBot)
  : DiscordBot :=
  {| auth := auth b; last_active_reserves := last_active_reserves b;
     token_file := token_file b; reserves_state_file := f;
     trace := trace b |}.

Definition with_trace (t : list event) (b : DiscordBot) : DiscordBot :=
  {| auth := auth b; last_active_reserves := last_active_reserves b;
     token_file := token_file b; reserves_state_file := reserves_state_file b;
     trace := t |}.

(* ===================================================================== *)
(** ** The state-and-exception monad *)
(* ===================================================================== *)

(** A raised exception keeps the mutations made before it, as in Python. *)
Definition M (A : Type) : Type := DiscordBot -> DiscordBot * result A.

#[export] Instance M_ret : MRet M := fun A a b => (b, Ok a).

#[export] Instance M_bind : MBind M := fun A B f m b =>
  match m b with
  | (b', Ok a) => f a b'
  | (b', Raise e) => (b', Raise e)
  end.

Definition raise {A : Type} (e : exn) : M A := fun b => (b, Raise e).

(** [try: m except Exception as e: h e]. *)
Definition try_except {A : Type} (m : M A) (h : exn -> M A) : M A := fun b =>
  match m b with
  | (b', Ok a) => (b', Ok a)
  | (b', Raise e) => h e b'
  end.

Definition gets {A : Type} (f : DiscordBot -> A) : M A := fun b => (b, Ok (f b)).

Definition modify (f : DiscordBot -> DiscordBot) : M unit :=
  fun b => (f b, Ok tt).

Definition emit (e : event) : M unit :=
  modify (fun b => with_trace (trace b ++ [e])%list b).

Definition lift {A : Type} (r : result A) : M A := fun b => (b, r).

(** [self.auth.access_token = v] and its two siblings. *)
Definition set_access_token (v : option string) : M unit :=
  modify (fun b => with_auth
    {| access_token := v;
       refresh_token := refresh_token (auth b);
       expires_at := expires_at (auth b) |} b).

Definition set_refresh_token (v : option string) : M unit :=
  modify (fun b => with_auth
    {| access_token := access_token (auth b);
       refresh_token := v;
       expires_at := expires_at (auth b) |} b).

Definition set_expires_at (v : option Z) : M unit :=
  modify (fun b => with_auth
    {| access_token := access_token (auth b);
       refresh_token := refresh_token (auth b);
       expires_at := v |} b).

(* ===================================================================== *)
(** ** The reserves snapshot and the outside world *)
(* ===================================================================== *)

(** One element of [stock_info['bonus_values']].  [number] is the type of
    JSON numbers; the bot only ever prints one. *)
Record bonus (number : Type) : Type := {
  value : number;
  battle_type : string
}.
Arguments value {number} b.
Arguments battle_type {number} b.

(** One element of [reserve['in_stock']]. *)
Record stock_info (number : Type) : Type := {
  status : string;
  activated_at : Z;
  active_till : Z;
  level : Z;
  bonus_values : list (bonus number)
}.
Arguments status {number} s.
Arguments activated_at {number} s.
Arguments active_till {number} s.
Arguments level {number} s.
Arguments bonus_values {number} s.

(** One element of [data["data"]]. *)
Record reserve (number : Type) : Type := {
  name : string;
  in_stock : list (stock_info number)
}.
Arguments name {number} r.
Arguments in_stock {number} r.

(** Everything the outside world contributes to one call of
    [fetch_and_post_reserves] or [handle_oauth_callback]. *)
Record world (number : Type) : Type := {
  (** [time.time()] at line 329, 136, 163, 340 and 308 *)
  clock_expiry : Z;
  clock_token : Z;
  clock_refresh : Z;
  clock_cleanup : Z;
  clock_callback : Z;
  (** answer of the prolongate endpoint *)
  prolongate : http_reply refresh_body;
  (** answer of the clanreserves endpoint; the body is [data.get("data")] *)
  clanreserves : http_reply (option (list (reserve number)));
  (** a write to disk goes through, and if not, where it fails *)
  disk_ok : bool;
  disk_failure : failure_point;
  (** [fetch_user] and [admin_user.send] go through *)
  admin_ok : bool;
  (** [get_channel]: [None] when not found, else whether [send] goes through *)
  channel : option bool
}.
Arguments clock_expiry {number} w.
Arguments clock_token {number} w.
Arguments clock_refresh {number} w.
Arguments clock_cleanup {number} w.
Arguments clock_callback {number} w.
Arguments prolongate {number} w.
Arguments clanreserves {number} w.
Arguments disk_ok {number} w.
Arguments disk_failure {number} w.
Arguments admin_ok {number} w.
Arguments channel {number} w.

Definition newline : string := String (ascii_of_nat 10) EmptyString.

(** [f"{x}"] for a query parameter that may be [None]. *)
Definition fstr (o : option string) : string := default "None" o.

(* ===================================================================== *)
(** ** WargamingAuth and DiscordBot *)
(* ===================================================================== *)

Module Bot.

Section Methods.

Context {number : Type}.
(** [f"{bonus['value']}"] *)
Variable str_number : number -> string.
(** [pytz.timezone(TIME_ZONE)], then
    [fromtimestamp(t).astimezone(tz).strftime('%Y-%m-%d %H:%M:%S')]: the
    text, or what one of the four calls raises *)
Variable strftime_local : Z -> result string.
(** [requests.utils.quote] *)
Variable quote : string -> string.
Variables WG_APPLICATION_ID redirect_uri : string.

Definition log (r : log_record) : M unit := emit (Log r).

(** Whether the write of this call fails at point [p]. *)
Definition disk_fails_at (w : world number) (p : failure_point) : bool :=
  negb (disk_ok w) &&
  match disk_failure w, p with
  | AtOpen, AtOpen | AtDump, AtDump | AtClose, AtClose => true
  | _, _ => false
  end.

(** [open(path, 'w')] (with [os.makedirs] before it): raises with the file
    untouched, or leaves the file empty. *)
Definition open_for_writing {A : Type} (w : world number)
    (set_file : file A -> DiscordBot -> DiscordBot) : M unit :=
  if disk_fails_at w AtOpen then raise OSError
  else modify (set_file Broken).

(** [json.dump(content, f)]: raises with the file still cut short, or
    writes the value. *)
Definition json_dump {A : Type} (w : world number)
    (set_file : file A -> DiscordBot -> DiscordBot) (content : A) : M unit :=
  if disk_fails_at w AtDump then raise OSError
  else modify (set_file (Content content)).

(** Leaving the [with] block closes the file: a failure there leaves it
    cut short. *)
Definition close_file {A : Type} (w : world number)
    (set_file : file A -> DiscordBot -> DiscordBot) : M unit :=
  if disk_fails_at w AtClose then modify (set_file Broken);; raise OSError
  else mret tt.

(** [WargamingAuth.save_tokens], lines 123-133: the success is logged
    inside the [with] block, before the file is closed; a failure is
    logged and swallowed. *)
Definition save_tokens (w : world number) : M unit :=
  a ← gets auth;
  emit (WriteTokens a);;
  try_except
    (open_for_writing w with_token_file;;
     json_dump w with_token_file a;;
     log InfoSavedTokens;;
     close_file w with_token_file)
    (fun _ => log ErrorSavingTokens).

(** [WargamingAuth.refresh_access_token]. *)
Definition refresh_access_token (w : world number) : M unit :=
  a ← gets auth;
  emit (PostProlongate (refresh_token a));;
  match prolongate w with
  | Unreachable => raise ConnectionError
  | Undecodable _ => raise JSONDecodeError
  | Reply _ data =>
      if decide (r_status data = Some "ok") then
        d ← from_option mret (raise (KeyError "data")) (r_data data);
        tok ← from_option mret (raise (KeyError "access_token"))
                (d_access_token d);
        set_access_token (Some tok);;
        rtok ← from_option mret (raise (KeyError "refresh_token"))
                 (d_refresh_token d);
        set_refresh_token (Some rtok);;
        life ← from_option mret (raise (KeyError "expires_at"))
                 (d_expires_at d);
        set_expires_at (Some (clock_refresh w + life));;
        save_tokens w
      else raise TokenRefreshFailed
  end.

(** The guard of line 138. *)
Definition token_fresh (a : WargamingAuth) (current_time : Z) : bool :=
  Py.truthy (access_token a) &&
  match expires_at a with
  | Some e => negb (e =? 0) && (current_time <? e - 300)
  | None => false
  end.

(** [WargamingAuth.get_valid_token]. *)
Definition get_valid_token (w : world number) : M (option string) :=
  a ← gets auth;
  if token_fresh a (clock_token w) then mret (access_token a)
  else if Py.truthy (refresh_token a) then
    try_except
      (refresh_access_token w;; gets (fun b => access_token (auth b)))
      (fun e => log (ErrorRefreshingToken e);; mret None)
  else mret None.

(** [DiscordBot.save_reserves_state], lines 209-219: the success is
    logged after the [with] block. *)
Definition save_reserves_state (w : world number) : M unit :=
  s ← gets last_active_reserves;
  emit (WriteReserves s);;
  try_except
    (open_for_writing w with_reserves_state_file;;
     json_dump w with_reserves_state_file s;;
     close_file w with_reserves_state_file;;
     log InfoSavedReserves)
    (fun _ => log ErrorSavingReserves).

(** [int(reserve_id.split('_')[1])]. *)
Definition activation_key (reserve_id : string) : result Z :=
  match Py.split "_" reserve_id !! 1%nat with
  | None => Raise IndexError
  | Some segment =>
      match Py.int segment with
      | Some n => Ok n
      | None => Raise ValueError
      end
  end.

(** The set comprehension of lines 223-226 over the ids in iteration
    order: the first id that fails to parse raises. *)
Fixpoint expired_among (ids : list string) (current_time : Z)
  : result (gset string) :=
  match ids with
  | [] => Ok ∅
  | reserve_id :: rest =>
      match activation_key reserve_id with
      | Raise e => Raise e
      | Ok n =>
          match expired_among rest current_time with
          | Raise e => Raise e
          | Ok expired =>
              if n <? current_time - 7200
              then Ok ({[reserve_id]} ∪ expired)
              else Ok expired
          end
      end
  end.

(** [DiscordBot.cleanup_expired_reserves].  Python leaves the iteration
    order of a set open; [elements] stands for it. *)
Definition cleanup_expired_reserves (w : world number) (current_time : Z)
  : M unit :=
  last ← gets last_active_reserves;
  expired ← lift (expired_among (elements last) current_time);
  if decide (expired = ∅) then mret tt
  else
    modify (with_last_active_reserves (last ∖ expired));;
    save_reserves_state w;;
    log (InfoCleanedUp (size expired)).

(** [DiscordBot.send_admin_message]: never raises. *)
Definition send_admin_message (w : world number) (m : admin_message)
  : M unit :=
  emit (SendAdmin m);;
  if admin_ok w then log InfoSentAdminMessage else log ErrorAdminMessage.

Definition auth_params : list (string * string) :=
  [ ("application_id", WG_APPLICATION_ID);
    ("redirect_uri", redirect_uri);
    ("display", "page");
    ("nofollow", "0");
    ("expires_at", "1736027938");
    ("response_type", "code token") ].

Definition full_auth_url : string :=
  "https://api.worldoftanks.eu/wot/auth/login/" +:+ "?" +:+
  Py.join "&" (map (fun kv => kv.1 +:+ "=" +:+ quote kv.2) auth_params).

(** [DiscordBot.start_oauth_flow]. *)
Definition start_oauth_flow : M string :=
  log (InfoPleaseVisit full_auth_url);;
  mret full_auth_url.

(** [f"{name}_{stock_info['activated_at']}"], line 363. *)
Definition reserve_id (name : string) (activated_at : Z) : string :=
  name +:+ "_" +:+ Py.str activated_at.

Definition bullet : string := "•".

(** The announcement text of one reserve, lines 367-378; the time is
    formatted first and may raise. *)
Definition reserve_info (name : string) (s : stock_info number)
  : result string :=
  match strftime_local (active_till s) with
  | Raise e => Raise e
  | Ok active_till =>
      let bonus_text :=
        map (fun b => str_number (value b) +:+ "x for " +:+ battle_type b)
            (bonus_values s) in
      Ok ("**" +:+ name +:+ "** (Level " +:+ Py.str (level s) +:+ ")" +:+
          newline +:+
          bullet +:+ " " +:+ Py.join ", " bonus_text +:+ newline +:+
          bullet +:+ " Active until: " +:+ active_till)
  end.

(** One turn of the loop of lines 357-379 on the pair
    [(current_active, newly_activated)]; [last] is
    [self.last_active_reserves], which the loop only reads.  The loop
    stops where [in_stock[0]] or the formatting of a new entry raises. *)
Definition scan_step (last : gset string)
    (acc : gset string * list string) (r : reserve number)
  : result (gset string * list string) :=
  match in_stock r with
  | [] => Raise IndexError
  | stock :: _ =>
      if String.eqb (status stock) "active" then
        let rid := reserve_id (name r) (activated_at stock) in
        let current_active := {[rid]} ∪ acc.1 in
        if decide (rid ∈ last) then Ok (current_active, acc.2)
        else
          match reserve_info (name r) stock with
          | Ok info => Ok (current_active, (acc.2 ++ [info])%list)
          | Raise e => Raise e
          end
      else Ok acc
  end.

Fixpoint scan (last : gset string) (acc : gset string * list string)
    (reserves : list (reserve number))
  : result (gset string * list string) :=
  match reserves with
  | [] => Ok acc
  | r :: rest =>
      match scan_step last acc r with
      | Ok acc' => scan last acc' rest
      | Raise e => Raise e
      end
  end.

(** The diff of one snapshot against the announced set: the loop started
    from [current_active = set()], [newly_activated = []]. *)
Definition diff (last : gset string) (reserves : list (reserve number))
  : result (gset string * list string) :=
  scan last (∅, []) reserves.

Definition announcement_header : string :=
  "**BONARIT ON PÄÄLLÄ, NYT KAIKKI PELAAMAAN:**" +:+ newline +:+ newline.

(** Lines 381-384: replace and save the tracking set when it changed. *)
Definition update_tracking (w : world number) (current_active : gset string)
  : M unit :=
  last ← gets last_active_reserves;
  if decide (current_active = last) then mret tt
  else
    modify (with_last_active_reserves current_active);;
    save_reserves_state w.

(** Lines 386-392: one combined message to the channel. *)
Definition announce (w : world number) (newly_activated : list string)
  : M unit :=
  match newly_activated with
  | [] => mret tt
  | _ :: _ =>
      let message :=
        announcement_header +:+ Py.join (newline +:+ newline) newly_activated in
      match channel w with
      | None => mret tt
      | Some sent =>
          emit (ChannelSend message);;
          if sent then mret tt else raise DiscordError
      end
  end.

(** Lines 328-332: the early warning. *)
Definition expiry_warning (w : world number) : M unit :=
  a ← gets auth;
  match expires_at a with
  | Some e =>
      if e =? 0 then mret tt
      else
        let time_until_expiry := e - clock_expiry w in
        if time_until_expiry <? 86400 then
          url ← start_oauth_flow;
          send_admin_message w (ExpiryWarning (time_until_expiry ÷ 3600) url)
        else mret tt
  | None => mret tt
  end.

(** Lines 339-392: what follows a usable token. *)
Definition fetch_and_diff (w : world number) (token : option string)
  : M unit :=
  cleanup_expired_reserves w (clock_cleanup w);;
  emit (GetReserves token);;
  match clanreserves w with
  | Unreachable => raise ConnectionError
  | Undecodable _ => raise JSONDecodeError
  | Reply status_code (Some reserves) =>
      if status_code =? 200 then
        last ← gets last_active_reserves;
        found ← lift (diff last reserves);
        update_tracking w found.1;;
        announce w found.2
      else mret tt
  | Reply _ None => mret tt
  end.

(** The body of [fetch_and_post_reserves] inside its [try]. *)
Definition poll_body (w : world number) : M unit :=
  expiry_warning w;;
  token ← get_valid_token w;
  if negb (Py.truthy token) then
    url ← start_oauth_flow;
    send_admin_message w (NeedsReauthorization url)
  else fetch_and_diff w token.

(** [DiscordBot.fetch_and_post_reserves]: one poll cycle. *)
Definition fetch_and_post_reserves (w : world number) : M unit :=
  try_except (poll_body w) (fun e => log (ErrorCycle e)).

(** [DiscordBot.handle_oauth_callback]. *)
Definition handle_oauth_callback (w : world number) (req : request)
  : M response :=
  log (InfoCallbackParams req);;
  if negb (bool_decide (q_status req = Some "ok"))
     || negb (Py.truthy (q_access_token req))
  then
    log ErrorInvalidCallback;;
    mret {| text := "Authorization failed"; http_status := 400 |}
  else
    try_except
      (set_access_token (q_access_token req);;
       set_refresh_token (q_refresh_token req);;
       expiry ←
         (if Py.truthy (q_expires_at req) then
            from_option mret (raise ValueError)
              (Py.int (default "" (q_expires_at req)))
          else mret (clock_callback w + 86400));
       set_expires_at (Some expiry);;
       save_tokens w;;
       log (InfoCallbackTokens req);;
       match channel w with
       | Some _ =>
           send_admin_message w (Authorized (q_nickname req));;
           fetch_and_post_reserves w
       | None => mret tt
       end;;
       mret {| text := "Authorization successful for " +:+
                       fstr (q_nickname req) +:+
                       "! You can close this window.";
               http_status := 200 |})
      (fun e =>
         log (ErrorProcessingCallback e);;
         mret {| text := "Error processing authorization";
                 http_status := 500 |}).

End Methods.

Arguments reserve_id name activated_at : simpl never.

(* ===================================================================== *)
(** ** The claims in the words of the specification *)
(* ===================================================================== *)

Section Spec.

Context {number : Type}.
Variable str_number : number -> string.
Variable strftime_local : Z -> result string.

(** A snapshot entry in the sense of the specification has a status, an
    activation time and so on: they are those of its first stock item. *)
Definition well_formed (r : reserve number) : Prop := in_stock r ≠ [].

Definition entry_active (r : reserve number) : bool :=
  match in_stock r with
  | stock :: _ => String.eqb (status stock) "active"
  | [] => false
  end.

(** The id of an entry, spelled out: the name, an underscore, and the
    activation time in decimal. *)
Definition entry_id (r : reserve number) : string :=
  match in_stock r with
  | stock :: _ => name r +:+ "_" +:+ Py.str (activated_at stock)
  | [] => EmptyString
  end.

(** The announcement text of an entry, or what formatting it raises. *)
Definition entry_text (r : reserve number) : result string :=
  match in_stock r with
  | stock :: _ => reserve_info str_number strftime_local (name r) stock
  | [] => Raise IndexError
  end.

Definition entry_info (r : reserve number) : string :=
  match entry_text r with
  | Ok info => info
  | Raise _ => EmptyString
  end.

Definition formats (r : reserve number) : bool :=
  match entry_text r with
  | Ok _ => true
  | Raise _ => false
  end.

(** Every entry of the snapshot that is active and not in the previous
    state can be formatted (its time is one the clock library accepts). *)
Definition formattable (previous : gset string)
    (snapshot : list (reserve number)) : Prop :=
  Forall (fun r => entry_active r = true → entry_id r ∉ previous →
                   formats r = true) snapshot.

(** [currentActive]: the ids of the active entries. *)
Definition spec_current_active (snapshot : list (reserve number))
  : gset string :=
  list_to_set (entry_id <$> filter (fun r => entry_active r = true) snapshot).

(** [newlyActivated]: the active entries whose id is not in the previous
    state, in snapshot order (as the announcement texts the bot keeps). *)
Definition spec_newly_activated (previous : gset string)
    (snapshot : list (reserve number)) : list string :=
  entry_info <$>
    filter (fun r => entry_active r = true ∧ entry_id r ∉ previous) snapshot.

End Spec.

End Bot.

Import Bot.

(** The [WriteReserves] events of a trace, in order. *)
Definition reserve_writes (t : list event) : list (gset string) :=
  omap (fun e => match e with WriteReserves s => Some s | _ => None end) t.

(** The requests of a trace to the clanreserves endpoint. *)
Definition reserve_requests (t : list event) : list (option string) :=
  omap (fun e => match e with GetReserves tok => Some tok | _ => None end) t.

Definition is_log (e : event) : bool :=
  match e with Log _ => true | _ => false end.

Definition is_admin_message (e : event) : bool :=
  match e with SendAdmin _ => true | _ => false end.

(** A bot that has just started with nothing on disk. *)
Definition fresh_bot : DiscordBot :=
  {| auth := {| access_token := None; refresh_token := None;
                expires_at := None |};
     last_active_reserves := ∅;
     token_file := NoFile;
     reserves_state_file := NoFile;
     trace := [] |}.

(** A quiet world: both endpoints down, disk and chat working. *)
Definition quiet_world : world Z :=
  {| clock_expiry := 0; clock_token := 0; clock_refresh := 0;
     clock_cleanup := 0; clock_callback := 0;
     prolongate := Unreachable; clanreserves := Unreachable;
     disk_ok := true; disk_failure := AtOpen; admin_ok := true; channel := Some true |}.

(** The file after a write of [content] over [old] in world [w]. *)
Definition written {number A : Type} (w : world number) (content : A)
    (old : file A) : file A :=
  if disk_ok w then Content content
  else match disk_failure w with
       | AtOpen => old
       | AtDump | AtClose => Broken
       end.

(** What [save_tokens] and [save_reserves_state] log in world [w]. *)
Definition tokens_log {number : Type} (w : world number) : list event :=
  if disk_ok w then [Log InfoSavedTokens]
  else match disk_failure w with
       | AtClose => [Log InfoSavedTokens; Log ErrorSavingTokens]
       | AtOpen | AtDump => [Log ErrorSavingTokens]
       end.

Definition reserves_log {number : Type} (w : world number) : list event :=
  if disk_ok w then [Log InfoSavedReserves] else [Log ErrorSavingReserves].

(** What a token save leaves behind once the credential is [a]. *)
Definition saved_tokens {number : Type} (w : world number)
    (a : WargamingAuth) (b : DiscordBot) : DiscordBot :=
  {| auth := a;
     last_active_reserves := last_active_reserves b;
     token_file := written w a (token_file b);
     reserves_state_file := reserves_state_file b;
     trace := trace b ++ WriteTokens a :: tokens_log w |}.

(** What a reserve-state save leaves behind once the set is [s]. *)
Definition saved_reserves {number : Type} (w : world number)
    (s : gset string) (b : DiscordBot) : DiscordBot :=
  {| auth := auth b;
     last_active_reserves := s;
     token_file := token_file b;
     reserves_state_file := written w s (reserves_state_file b);
     trace := trace b ++ WriteReserves s :: reserves_log w |}.

(** The bot after some more events. *)
Definition after (events : list event) (b : DiscordBot) : DiscordBot :=
  with_trace (trace b ++ events) b.

(** A successful answer of the prolongate endpoint: status [ok] and the
    three fields. *)
Definition prolongate_ok (tok rtok : string) (life : Z) : refresh_body :=
  {| r_status := Some "ok";
     r_data := Some {| d_access_token := Some tok;
                       d_refresh_token := Some rtok;
                       d_expires_at := Some life |} |}.

(** A transport error, an undecodable body, or a status other than [ok]. *)
Definition prolongate_fails {number : Type} (w : world number) : Prop :=
  match prolongate w with
  | Unreachable | Undecodable _ => True
  | Reply _ body => r_status body ≠ Some "ok"
  end.

(** "A token exists and now < expiresAt - 300". *)
Definition usable (a : WargamingAuth) (now : Z) : Prop :=
  ∃ tok e, access_token a = Some tok ∧ tok ≠ EmptyString ∧
           expires_at a = Some e ∧ now < e - 300.

(** Events that concern the credential, the admin or the log, as opposed
    to the reserve state, the clanreserves endpoint and the channel. *)
Definition auth_event (e : event) : bool :=
  match e with
  | WriteReserves _ | GetReserves _ | ChannelSend _ => false
  | _ => true
  end.

(** The same bot with another announced set and another state file. *)
Definition with_reserves (s : gset string) (f : file (gset string))
    (b : DiscordBot) : DiscordBot :=
  with_reserves_state_file f (with_last_active_reserves s b).

(** An operation of the credential side: its outcome is a function of the
    credential and the token file, it appends only credential events, and
    it leaves the announced set and the state file alone. *)
Definition auth_only {A : Type} (m : M A) : Prop :=
  ∀ (a : WargamingAuth) (tf : file WargamingAuth),
  ∃ (a' : WargamingAuth) (tf' : file WargamingAuth) (evs : list event)
    (r : result A),
    Forall (fun e => auth_event e = true) evs ∧
    ∀ (s : gset string) (f : file (gset string)) (t : list event),
      m {| auth := a; last_active_reserves := s; token_file := tf;
           reserves_state_file := f; trace := t |}
      = ({| auth := a'; last_active_reserves := s; token_file := tf';
            reserves_state_file := f; trace := t ++ evs |}, r).

(** The writes persistence makes when a set replaces another. *)
Definition writes_on_change (before now_ : gset string) : list (gset string) :=
  if decide (now_ = before) then [] else [now_].

(** The expiry the callback stores: the one supplied, else a day from now;
    [None] when the supplied one is no integer. *)
Definition callback_expiry {number : Type} (w : world number) (req : request)
  : option Z :=
  if Py.truthy (q_expires_at req) then Py.int (default "" (q_expires_at req))
  else Some (clock_callback w + 86400).

(** A stand-in for the clock library: it prints the epoch second itself
    and, like [fromtimestamp], raises [ValueError] for a time outside the
    years 1 to 9999. *)
Definition sample_strftime (t : Z) : result string :=
  if (-62135596800 <=? t) && (t <=? 253402300799) then Ok (Py.str t)
  else Raise ValueError.

(** An active reserve whose end lies beyond the year 9999. *)
Definition far_future_snapshot : list (reserve Z) :=
  [ {| name := "Gold";
       in_stock :=
         [ {| status := "active"; activated_at := 1000;
              active_till := 1000000000000; level := 3;
              bonus_values := [ {| value := 2; battle_type := "random" |} ]
           |} ] |} ].

(** A snapshot with one active and one idle reserve. *)
Definition sample_snapshot : list (reserve Z) :=
  [ {| name := "Gold";
       in_stock :=
         [ {| status := "active"; activated_at := 1000; active_till := 5000;
              level := 3;
              bonus_values := [ {| value := 2; battle_type := "random" |} ]
           |} ] |};
    {| name := "Silver";
       in_stock :=
         [ {| status := "ready_to_activate"; activated_at := 0;
              active_till := 0; level := 1; bonus_values := [] |} ] |} ].

(** A bot holding a credential that is good until 2033. *)
Definition authorized_bot : DiscordBot :=
  {| auth := {| access_token := Some "T"; refresh_token := Some "R";
                expires_at := Some 2000000000 |};
     last_active_reserves := ∅;
     token_file := NoFile;
     reserves_state_file := NoFile;
     trace := [] |}.

(** Late 2023; the clanreserves endpoint answers 500 with a JSON body that
    has no data. *)
Definition serving_world : world Z :=
  {| clock_expiry := 1700000000; clock_token := 1700000000;
     clock_refresh := 1700000000; clock_cleanup := 1700000000;
     clock_callback := 1700000000;
     prolongate := Unreachable; clanreserves := Reply 500 None;
     disk_ok := true; disk_failure := AtOpen; admin_ok := true; channel := Some true |}.

(** The same moment with the chat client not ready: no channel. *)
Definition channelless_world : world Z :=
  {| clock_expiry := 1700000000; clock_token := 1700000000;
     clock_refresh := 1700000000; clock_cleanup := 1700000000;
     clock_callback := 1700000000;
     prolongate := Unreachable; clanreserves := Reply 500 None;
     disk_ok := true; disk_failure := AtOpen; admin_ok := true; channel := None |}.

(** A redirect after a successful login. *)
Definition sample_request : request :=
  {| q_status := Some "ok"; q_access_token := Some "T";
     q_refresh_token := Some "R"; q_account_id := Some "500000001";
     q_nickname := Some "commander"; q_expires_at := Some "2000000000" |}.

(** The credential the callback stores. *)
Definition callback_credential (req : request) (expiry : Z) : WargamingAuth :=
  {| access_token := q_access_token req;
     refresh_token := q_refresh_token req;
     expires_at := Some expiry |}.

(** The answer to a redirect that was processed. *)
Definition callback_success (req : request) : response :=
  {| text := "Authorization successful for " +:+ fstr (q_nickname req) +:+
             "! You can close this window.";
     http_status := 200 |}.

(** The bot once the callback has stored and saved the credential. *)
Definition callback_stored {number : Type} (w : world number) (req : request)
    (expiry : Z) (b : DiscordBot) : DiscordBot :=
  after [Log (InfoCallbackTokens req)]
    (saved_tokens w (callback_credential req expiry)
       (after [Log (InfoCallbackParams req)] b)).

(** The text before the first separator (all of it when there is none). *)
Definition first_segment (c : ascii) (s : string) : string :=
  hd EmptyString (Py.split c s).

(** The value of a decimal numeral read left to right from [acc]. *)
Fixpoint uint_value (d : Decimal.uint) (acc : Z) : Z :=
  match d with
  | Decimal.Nil => acc
  | Decimal.D0 d' => uint_value d' (10 * acc + 0)
  | Decimal.D1 d' => uint_value d' (10 * acc + 1)
  | Decimal.D2 d' => uint_value d' (10 * acc + 2)
  | Decimal.D3 d' => uint_value d' (10 * acc + 3)
  | Decimal.D4 d' => uint_value d' (10 * acc + 4)
  | Decimal.D5 d' => uint_value d' (10 * acc + 5)
  | Decimal.D6 d' => uint_value d' (10 * acc + 6)
  | Decimal.D7 d' => uint_value d' (10 * acc + 7)
  | Decimal.D8 d' => uint_value d' (10 * acc + 8)
  | Decimal.D9 d' => uint_value d' (10 * acc + 9)
  end.

(* ===================================================================== *)
(** ** Start-up: what a new process reads back *)
(* ===================================================================== *)

(** What the loaders log. *)
Inductive startup_log : Type :=
| InfoLoadedTokens
| ErrorLoadingTokens
| ErrorLoadingReserves.

(** [WargamingAuth.load_tokens], lines 111-121, on the state of
    [TOKEN_FILE]; [readable] says whether [open] goes through.  A failure
    of [open] or [json.load] is logged and leaves the fields as they
    are. *)
Definition load_tokens (readable : bool) (f : file WargamingAuth)
    (self : WargamingAuth) : WargamingAuth * list startup_log :=
  match f with
  | Content data =>
      if readable then
        ({| access_token := access_token data;
            refresh_token := refresh_token data;
            expires_at := expires_at data |}, [InfoLoadedTokens])
      else (self, [ErrorLoadingTokens])
  | Broken => (self, [ErrorLoadingTokens])
  | NoFile => (self, [])
  end.

(** [WargamingAuth.__init__], lines 103-109. *)
Definition WargamingAuth_init (readable : bool) (f : file WargamingAuth)
  : WargamingAuth * list startup_log :=
  load_tokens readable f
    {| access_token := None; refresh_token := None; expires_at := None |}.

(** [DiscordBot.load_reserves_state], lines 197-207, on the state of
    [RESERVES_STATE_FILE]. *)
Definition load_reserves_state (readable : bool) (f : file (gset string))
  : gset string * list startup_log :=
  match f with
  | Content announced_reserves =>
      if readable then (announced_reserves, [])
      else (∅, [ErrorLoadingReserves])
  | Broken => (∅, [ErrorLoadingReserves])
  | NoFile => (∅, [])
  end.

(** Memory and disk agree: a process started now would hold the same
    announced set, respectively the same credential. *)
Definition reserves_in_sync (b : DiscordBot) : Prop :=
  (load_reserves_state true (reserves_state_file b)).1
  = last_active_reserves b.

Definition tokens_in_sync (b : DiscordBot) : Prop :=
  (WargamingAuth_init true (token_file b)).1 = auth b.

(** The prolongate endpoint keeps its contract: an answer with status
    [ok] carries the three fields. *)
Definition prolongate_well_formed {number : Type} (w : world number) : Prop :=
  match prolongate w with
  | Reply _ body =>
      r_status body = Some "ok" →
      ∃ tok rtok life, body = prolongate_ok tok rtok life
  | _ => True
  end.

(** The admin messages and the channel messages of a trace, in order. *)
Definition admin_messages (t : list event) : list admin_message :=
  omap (fun e => match e with SendAdmin m => Some m | _ => None end) t.

Definition channel_messages (t : list event) : list string :=
  omap (fun e => match e with ChannelSend m => Some m | _ => None end) t.

(** The text of the one announcement for the new reserves, lines 387-388. *)
Definition announcement (newly_activated : list string) : string :=
  announcement_header +:+ Py.join (newline +:+ newline) newly_activated.

(** The tracking set and file once the diff has found [current_active],
    lines 381-384. *)
Definition tracked {number : Type} (w : world number)
    (current_active : gset string) (b : DiscordBot) : DiscordBot :=
  if decide (current_active = last_active_reserves b) then b
  else saved_reserves w current_active b.

(** Successive cycles of the [tasks.loop] of line 324, one world each. *)
Definition run_cycles {number : Type} (str_number : number -> string)
    (strftime_local : Z -> result string) (quote : string -> string)
    (WG_APPLICATION_ID redirect_uri : string)
    (worlds : list (world number)) (b : DiscordBot) : DiscordBot :=
  foldl (fun b w =>
           (fetch_and_post_reserves str_number strftime_local quote
              WG_APPLICATION_ID redirect_uri w b).1) b worlds.

(* ===================================================================== *)
(** ** Start-up: the public address *)
(* ===================================================================== *)

(** [sub in s] for two texts. *)
Fixpoint str_in (sub s : string) : bool :=
  String.prefix sub s ||
  match s with
  | EmptyString => false
  | String _ s' => str_in sub s'
  end.

(** A UPnP service as [setup_upnp] uses it: its type and what its two
    actions answer ([Raise] when the call raises).  [value] is the type
    of what [GetExternalIPAddress] returns; the function only tests its
    truth value, logs it and hands it back.  [AddPortMapping] is the
    outcome of the whole call of lines 60-69, the evaluation of its
    arguments ([get_local_ip]) included. *)
Record service (value : Type) : Type := {
  service_type : string;
  GetExternalIPAddress : result value;
  AddPortMapping : result unit
}.
Arguments service_type {value} s.
Arguments GetExternalIPAddress {value} s.
Arguments AddPortMapping {value} s.

Record device (value : Type) : Type := {
  services : list (service value)
}.
Arguments services {value} d.

Inductive upnp_log (value : Type) : Type :=
| WarnNoDevices
| WarnNoExternalIP
| InfoExternalIP (external_ip : value)
| InfoMappedPort
| ErrorMapPort (e : exn)
| ErrorSetup (e : exn).
Arguments WarnNoDevices {value}.
Arguments WarnNoExternalIP {value}.
Arguments InfoExternalIP {value} external_ip.
Arguments InfoMappedPort {value}.
Arguments ErrorMapPort {value} e.
Arguments ErrorSetup {value} e.

Definition is_wan {value : Type} (s : service value) : bool :=
  str_in "WANIPConnection" (service_type s).

(** The loop of lines 45-48: the first WAN service is asked, then [break]. *)
Fixpoint external_ip_of {value : Type} (services : list (service value))
  : result (option value) :=
  match services with
  | [] => Ok None
  | s :: rest =>
      if is_wan s then
        match GetExternalIPAddress s with
        | Ok ip => Ok (Some ip)
        | Raise e => Raise e
        end
      else external_ip_of rest
  end.

(** The loop of lines 58-71: the first WAN service maps the port, then
    [break]; the answer says whether a service was found. *)
Fixpoint map_port {value : Type} (services : list (service value))
  : result bool :=
  match services with
  | [] => Ok false
  | s :: rest =>
      if is_wan s then
        match AddPortMapping s with
        | Ok _ => Ok true
        | Raise e => Raise e
        end
      else map_port rest
  end.

(** [setup_upnp], lines 34-79, on what [upnpclient.discover()] answers;
    [truth] is the truth value of what a service returned. *)
Definition setup_upnp {value : Type} (truth : value -> bool)
    (discover : result (list (device value)))
  : option value * list (upnp_log value) :=
  match discover with
  | Raise e => (None, [ErrorSetup e])
  | Ok [] => (None, [WarnNoDevices])
  | Ok (device :: _) =>
      match external_ip_of (services device) with
      | Raise e => (None, [ErrorSetup e])
      | Ok None => (None, [WarnNoExternalIP])
      | Ok (Some external_ip) =>
          if negb (truth external_ip) then (None, [WarnNoExternalIP])
          else
            match map_port (services device) with
            | Raise e => (None, [InfoExternalIP external_ip; ErrorMapPort e])
            | Ok mapped =>
                (Some external_ip,
                 InfoExternalIP external_ip ::
                 if mapped then [InfoMappedPort] else [])
            end
      end
  end.

(* ===================================================================== *)
(** ** More sample data *)
(* ===================================================================== *)

(** Late 2023 with the clanreserves endpoint answering 200 with
    [snapshot]; [chan] is what [get_channel] gives. *)
Definition answering_world (chan : option bool)
    (snapshot : list (reserve Z)) : world Z :=
  {| clock_expiry := 1700000000; clock_token := 1700000000;
     clock_refresh := 1700000000; clock_cleanup := 1700000000;
     clock_callback := 1700000000;
     prolongate := Unreachable; clanreserves := Reply 200 (Some snapshot);
     disk_ok := true; disk_failure := AtOpen; admin_ok := true; channel := chan |}.

(** The same moment with a disk that refuses writes. *)
Definition readonly_world : world Z :=
  {| clock_expiry := 1700000000; clock_token := 1700000000;
     clock_refresh := 1700000000; clock_cleanup := 1700000000;
     clock_callback := 1700000000;
     prolongate := Unreachable; clanreserves := Unreachable;
     disk_ok := false; disk_failure := AtDump; admin_ok := true; channel := Some true |}.

(** The same moment with a prolongate endpoint that answers [body]. *)
Definition prolonging_world (body : refresh_body) : world Z :=
  {| clock_expiry := 1700000000; clock_token := 1700000000;
     clock_refresh := 1700000000; clock_cleanup := 1700000000;
     clock_callback := 1700000000;
     prolongate := Reply 200 body; clanreserves := Unreachable;
     disk_ok := true; disk_failure := AtOpen; admin_ok := true; channel := Some true |}.

(** The active reserve of [sample_snapshot] and its stock item. *)
Definition gold_stock : stock_info Z :=
  {| status := "active"; activated_at := 1000; active_till := 5000;
     level := 3;
     bonus_values := [ {| value := 2; battle_type := "random" |} ] |}.

Definition gold : reserve Z :=
  {| name := "Gold"; in_stock := [gold_stock] |}.

(** One active reserve with an underscore in its name. *)
Definition payments_stock : stock_info Z :=
  {| status := "active"; activated_at := 1699999000;
     active_till := 1700006200; level := 10;
     bonus_values := [ {| value := 5; battle_type := "random" |} ] |}.

Definition payments : reserve Z :=
  {| name := "Battle_Payments"; in_stock := [payments_stock] |}.

Definition underscored_snapshot : list (reserve Z) := [payments].

(** A credential a hundred seconds from its expiry, with no refresh
    token. *)
Definition expiring_bot : DiscordBot :=
  {| auth := {| access_token := Some "T"; refresh_token := None;
                expires_at := Some 1700000100 |};
     last_active_reserves := ∅;
     token_file := NoFile;
     reserves_state_file := NoFile;
     trace := [] |}.

(** A redirect whose expiry is no integer. *)
Definition garbled_request : request :=
  {| q_status := Some "ok"; q_access_token := Some "T2";
     q_refresh_token := Some "R2"; q_account_id := Some "500000001";
     q_nickname := Some "commander"; q_expires_at := Some "soon" |}.

(* ===================================================================== *)
(** ** Text lemmas *)
(* ===================================================================== *)

Example int_plain : Py.int "1700000000" = Some 1700000000.
Proof. reflexivity. Qed.

Example int_signed_spaced : Py.int "  -42 " = Some (-42).
Proof. reflexivity. Qed.

Example int_grouped : Py.int "1_000" = Some 1000.
Proof. reflexivity. Qed.

Example int_rejects :
  Py.int "" = None /\ Py.int "abc" = None /\ Py.int "1__0" = None /\
  Py.int "_1" = None /\ Py.int "1_" = None /\ Py.int "- 1" = None /\
  Py.int "1 2" = None.
Proof. repeat split. Qed.

Example str_samples :
  Py.str 0 = "0" /\ Py.str 1000 = "1000" /\ Py.str (-7) = "-7".
Proof. repeat split. Qed.

Example split_samples :
  Py.split "_" "Gold_1000" = ["Gold"; "1000"] /\
  Py.split "_" "Gold" = ["Gold"] /\
  Py.split "_" "a__b_" = ["a"; ""; "b"; ""] /\
  Py.split "_" "" = [""].
Proof. repeat split. Qed.

Lemma split_nonempty (c : ascii) (s : string) : Py.split c s ≠ [].
Proof.
  destruct s as [|a s]; simpl; [done|].
  destruct (Ascii.eqb a c); [done|].
  by destruct (Py.split c s).
Qed.

Lemma split_no_sep (c : ascii) (s : string) :
  Py.contains c s = false → Py.split c s = [s].
Proof.
  induction s as [|a s IH]; simpl; [done|].
  destruct (Ascii.eqb a c); [done|].
  intros H. by rewrite (IH H).
Qed.

Lemma split_at_first_sep (c : ascii) (p q : string) :
  Py.contains c p = false →
  Py.split c (p +:+ String c q) = p :: Py.split c q.
Proof.
  induction p as [|a p IH]; simpl.
  - intros _. by rewrite Ascii.eqb_refl.
  - destruct (Ascii.eqb a c); [done|].
    intros H. by rewrite (IH H).
Qed.

(** Every text that contains the separator splits at its first one. *)
Lemma contains_first_sep (c : ascii) (s : string) :
  Py.contains c s = true →
  ∃ p q, s = p +:+ String c q ∧ Py.contains c p = false.
Proof.
  induction s as [|a s IH]; simpl; [done|].
  destruct (Ascii.eqb a c) eqn:E.
  - intros _. apply Ascii.eqb_eq in E as ->. by exists EmptyString, s.
  - intros H. destruct (IH H) as (p & q & -> & Hp).
    exists (String a p), q. simpl. by rewrite E.
Qed.

Lemma contains_app (c : ascii) (s t : string) :
  Py.contains c (s +:+ t) = Py.contains c s || Py.contains c t.
Proof.
  induction s as [|a s IH]; simpl; [done|].
  by destruct (Ascii.eqb a c).
Qed.

Lemma int_digits_uint (d : Decimal.uint) (acc : Z) :
  Py.int_digits acc (NilEmpty.string_of_uint d) = Some (uint_value d acc).
Proof.
  revert acc. induction d; intros acc; simpl; [done|..]; apply IHd.
Qed.

Lemma contains_uint (d : Decimal.uint) :
  Py.contains "_" (NilEmpty.string_of_uint d) = false.
Proof. induction d; simpl; done. Qed.

Lemma uint_value_revapp (d e : Decimal.uint) :
  Z.of_N (DecimalPos.Unsigned.of_lu (Decimal.revapp d e))
  = uint_value d (Z.of_N (DecimalPos.Unsigned.of_lu e)).
Proof.
  revert e. induction d; intros e; simpl; [done|..];
    rewrite IHd; f_equal; simpl DecimalPos.Unsigned.of_lu; lia.
Qed.

Lemma uint_value_pos (p : positive) : uint_value (Pos.to_uint p) 0 = Z.pos p.
Proof.
  rewrite <- (uint_value_revapp (Pos.to_uint p) Decimal.Nil : _ = uint_value _ 0).
  change (Decimal.revapp (Pos.to_uint p) Decimal.Nil)
    with (Decimal.rev (Pos.to_uint p)).
  by rewrite <- DecimalPos.Unsigned.of_uint_alt, DecimalPos.Unsigned.of_to.
Qed.

Lemma int_uint (d : Decimal.uint) :
  d ≠ Decimal.Nil →
  Py.int (NilEmpty.string_of_uint d) = Some (uint_value d 0) ∧
  Py.int (String "-" (NilEmpty.string_of_uint d)) = Some (- uint_value d 0).
Proof.
  intros Hd. destruct d; [done|..]; unfold Py.int; simpl;
    rewrite int_digits_uint; done.
Qed.

(** [int(str(n)) == n]. *)
Lemma int_str (n : Z) : Py.int (Py.str n) = Some n.
Proof.
  destruct n as [|p|p]; [done|..]; unfold Py.str; simpl;
    pose proof (DecimalPos.Unsigned.to_uint_nonnil p) as Hp;
    destruct (int_uint _ Hp) as [H1 H2];
    rewrite uint_value_pos in H1, H2.
  - unfold NilZero.string_of_uint. by destruct (Pos.to_uint p).
  - unfold NilZero.string_of_uint. by destruct (Pos.to_uint p).
Qed.

(** [str(n)] holds no underscore. *)
Lemma str_no_underscore (n : Z) : Py.contains "_" (Py.str n) = false.
Proof.
  destruct n as [|p|p]; [done|..]; unfold Py.str; simpl;
    unfold NilZero.string_of_uint;
    pose proof (contains_uint (Pos.to_uint p)) as H;
    by destruct (Pos.to_uint p).
Qed.

Lemma append_assoc (s t u : string) : (s +:+ t) +:+ u = s +:+ (t +:+ u).
Proof.
  induction s as [|a s IH]; [done|].
  change (String a ((s +:+ t) +:+ u) = String a (s +:+ (t +:+ u))).
  by rewrite IH.
Qed.

Lemma first_segment_app (c : ascii) (q r : string) :
  first_segment c (q +:+ String c r) = first_segment c q.
Proof.
  unfold first_segment. induction q as [|a q IH]; simpl.
  - by rewrite Ascii.eqb_refl.
  - destruct (Ascii.eqb a c); [done|].
    pose proof (split_nonempty c (q +:+ String c r)) as H1.
    pose proof (split_nonempty c q) as H2.
    destruct (Py.split c (q +:+ String c r)), (Py.split c q); try done.
    simpl in *. by rewrite IH.
Qed.

Lemma second_segment (c : ascii) (p q : string) :
  Py.contains c p = false →
  Py.split c (p +:+ String c q) !! 1%nat = Some (first_segment c q).
Proof.
  intros Hp. rewrite split_at_first_sep by done. simpl.
  unfold first_segment. pose proof (split_nonempty c q).
  by destruct (Py.split c q).
Qed.

(** The id of a reserve whose name holds no underscore parses back to its
    activation time. *)
Lemma activation_key_plain (n : string) (a : Z) :
  Py.contains "_" n = false → activation_key (reserve_id n a) = Ok a.
Proof.
  intros Hn. unfold activation_key, reserve_id.
  change ("_" +:+ Py.str a) with (String "_" (Py.str a)).
  rewrite second_segment by done.
  unfold first_segment.
  rewrite split_no_sep by apply str_no_underscore.
  simpl. by rewrite int_str.
Qed.

(** With an underscore in the name, what is parsed is the piece of the
    name after its first underscore. *)
Lemma activation_key_underscored (p q : string) (a : Z) :
  Py.contains "_" p = false →
  activation_key (reserve_id (p +:+ String "_" q) a)
  = match Py.int (first_segment "_" q) with
    | Some n => Ok n
    | None => Raise ValueError
    end.
Proof.
  intros Hp. unfold activation_key, reserve_id.
  rewrite append_assoc.
  change (String "_" q +:+ "_" +:+ Py.str a)
    with (String "_" (q +:+ String "_" (Py.str a))).
  rewrite second_segment by done.
  by rewrite first_segment_app.
Qed.

Lemma expired_among_ok (ids : list string) (now : Z) :
  (∀ i, i ∈ ids → ∃ k, activation_key i = Ok k) →
  ∃ expired, expired_among ids now = Ok expired ∧
    ∀ i, i ∈ expired ↔
         i ∈ ids ∧ ∃ k, activation_key i = Ok k ∧ k < now - 7200.
Proof.
  induction ids as [|i0 ids IH]; intros Hall; simpl.
  - exists ∅. split; [done|]. intros i.
    split; [by intros ?%elem_of_empty | by intros [?%elem_of_nil _]].
  - destruct (Hall i0) as [k0 Hk0]; [set_solver|]. rewrite Hk0.
    destruct IH as (E & -> & HE); [intros i Hi; apply Hall; set_solver|].
    destruct (Z.ltb_spec k0 (now - 7200)) as [Hlt|Hge].
    + eexists; split; [done|]. intros i.
      rewrite elem_of_union, elem_of_singleton, HE, elem_of_cons.
      split.
      * intros [->|[? ?]]; [|by auto]. split; [by left|]. by exists k0.
      * intros [[->|Hin] Hk]; [by left|]. right. by split.
    + exists E; split; [done|]. intros i.
      rewrite HE, elem_of_cons. split.
      * intros [? ?]; by auto.
      * intros [[->|Hin] (k & Hk & Hlt)]; [|by eauto].
        rewrite Hk0 in Hk. injection Hk as ->. lia.
Qed.

Lemma expired_among_raise (ids : list string) (now : Z) (i : string) (e : exn) :
  i ∈ ids → activation_key i = Raise e →
  ∃ e', expired_among ids now = Raise e'.
Proof.
  induction ids as [|i0 ids IH]; intros Hin Hi; [by apply elem_of_nil in Hin|].
  simpl. destruct (activation_key i0) as [k0|e0] eqn:E0; [|by eauto].
  apply elem_of_cons in Hin as [->|Hin]; [congruence|].
  destruct (IH Hin Hi) as [e' ->]. by eauto.
Qed.

Lemma expired_among_subset (ids : list string) (now : Z)
    (expired : gset string) :
  expired_among ids now = Ok expired → ∀ i, i ∈ expired → i ∈ ids.
Proof.
  revert expired. induction ids as [|i0 ids IH]; intros expired; simpl.
  - intros [= <-] i Hi. by apply elem_of_empty in Hi.
  - destruct (activation_key i0) as [k0|]; [|done].
    destruct (expired_among ids now) as [E|]; [|done].
    destruct (k0 <? now - 7200); intros [= <-] i Hi.
    + apply elem_of_union in Hi as [->%elem_of_singleton|Hi]; [by left|].
      right. by apply IH with E.
    + right. by apply IH with E.
Qed.

Lemma reserve_writes_app (t u : list event) :
  reserve_writes (t ++ u) = (reserve_writes t ++ reserve_writes u)%list.
Proof. apply omap_app. Qed.

Lemma reserve_writes_saved {number : Type} (w : world number)
    (s : gset string) (b : DiscordBot) :
  reserve_writes (trace (saved_reserves w s b))
  = (reserve_writes (trace b) ++ [s])%list.
Proof.
  simpl. rewrite reserve_writes_app. f_equal.
  unfold reserves_log. by destruct (disk_ok w).
Qed.

Lemma trace_after (evs : list event) (b : DiscordBot) :
  trace (after evs b) = (trace b ++ evs)%list.
Proof. reflexivity. Qed.

Lemma writes_on_change_same (s : gset string) : writes_on_change s s = [].
Proof. unfold writes_on_change. by rewrite decide_True. Qed.

(* ===================================================================== *)
(** ** Running the operations *)
(* ===================================================================== *)

Ltac run :=
  cbv [mbind M_bind mret M_ret gets modify emit log lift raise try_except
       set_access_token set_refresh_token set_expires_at from_option
       open_for_writing json_dump close_file
       with_trace with_auth with_last_active_reserves
       with_token_file with_reserves_state_file
       auth last_active_reserves token_file reserves_state_file trace].

(** The cases of a write: it goes through, or fails at one of its three
    points. *)
Ltac disk_cases w :=
  unfold written, tokens_log, reserves_log, disk_fails_at;
  destruct (disk_ok w), (disk_failure w); simpl.

Section Runs.

Context {number : Type}.
Implicit Types (w : world number) (b : DiscordBot).

Lemma cleanup_run w now b :
  cleanup_expired_reserves w now b =
  match expired_among (elements (last_active_reserves b)) now with
  | Raise e => (b, Raise e)
  | Ok expired =>
      if decide (expired = ∅) then (b, Ok tt)
      else
        (after [Log (InfoCleanedUp (size expired))]
           (saved_reserves w (last_active_reserves b ∖ expired) b), Ok tt)
  end.
Proof.
  unfold cleanup_expired_reserves, save_reserves_state, saved_reserves, after.
  destruct b as [a l tf rf t]. run.
  destruct (expired_among (elements l) now) as [expired|e]; [|done].
  destruct (decide (expired = ∅)); [done|].
  disk_cases w; by rewrite <- ?app_assoc.
Qed.

(** Ids that parse are purged exactly when the parsed number is below
    [now - 7200]; nothing else changes in the set. *)
Lemma cleanup_parsed w now b :
  (∀ i, i ∈ last_active_reserves b → ∃ k, activation_key i = Ok k) →
  ∃ b', cleanup_expired_reserves w now b = (b', Ok tt) ∧
    ∀ i, i ∈ last_active_reserves b' ↔
         i ∈ last_active_reserves b ∧
         ∃ k, activation_key i = Ok k ∧ ¬ k < now - 7200.
Proof.
  intros Hall. rewrite cleanup_run.
  destruct (expired_among_ok (elements (last_active_reserves b)) now)
    as (expired & -> & Hexp).
  { intros i Hi. apply Hall. by apply elem_of_elements. }
  assert (∀ i, i ∈ last_active_reserves b ∖ expired ↔
               i ∈ last_active_reserves b ∧
               ∃ k, activation_key i = Ok k ∧ ¬ k < now - 7200) as Hchar.
  { intros i. rewrite elem_of_difference, Hexp, elem_of_elements. split.
    - intros [Hin Hno]. split; [done|].
      destruct (Hall i Hin) as [k Hk]. exists k. split; [done|].
      intros Hlt. apply Hno. eauto.
    - intros [Hin (k & Hk & Hge)]. split; [done|].
      intros [_ (k' & Hk' & Hlt)]. rewrite Hk in Hk'. injection Hk' as <-.
      done. }
  destruct (decide (expired = ∅)) as [->|Hne].
  - exists b. split; [done|]. intros i. rewrite <- Hchar.
    rewrite elem_of_difference. split; [|by intros [? _]].
    intros Hin. split; [done|]. apply not_elem_of_empty.
  - eexists. split; [done|]. exact Hchar.
Qed.

Lemma cleanup_raises w now b (i : string) (e : exn) :
  i ∈ last_active_reserves b → activation_key i = Raise e →
  ∃ e', cleanup_expired_reserves w now b = (b, Raise e').
Proof.
  intros Hin Hi. rewrite cleanup_run.
  destruct (expired_among_raise (elements (last_active_reserves b)) now i e)
    as [e' ->]; [by apply elem_of_elements|done|].
  by exists e'.
Qed.

(** C2, amended.  When every announced id is [name_activatedAt] with no
    underscore in the name, cleanup returns normally, adds nothing, and
    removes exactly the ids whose activation time is strictly below
    [now - 7200]; every other id stays. *)
Theorem cleanup_removes_strictly_older w now b :
  (∀ i, i ∈ last_active_reserves b →
        ∃ n a, i = reserve_id n a ∧ Py.contains "_" n = false) →
  ∃ b', cleanup_expired_reserves w now b = (b', Ok tt) ∧
    last_active_reserves b' ⊆ last_active_reserves b ∧
    ∀ n a, Py.contains "_" n = false →
           reserve_id n a ∈ last_active_reserves b →
           (reserve_id n a ∈ last_active_reserves b' ↔ ¬ a < now - 7200).
Proof.
  intros Hform.
  destruct (cleanup_parsed w now b) as (b' & Hrun & Hchar).
  { intros i Hi. destruct (Hform i Hi) as (n & a & -> & Hn).
    exists a. by apply activation_key_plain. }
  exists b'. split; [done|]. split.
  - intros i Hi. by apply Hchar in Hi as [? _].
  - intros n a Hn Hin. rewrite Hchar, activation_key_plain by done. split.
    + intros [_ (k & Hk & Hge)]. by injection Hk as <-.
    + intros Hge. split; [done|]. by exists a.
Qed.

(** C10.  Cleanup reads the text between the first and the second
    underscore of an id.  For a name without underscore that is the
    activation time.  For a name with an underscore it is a piece of the
    name: when that piece is no integer cleanup raises and changes nothing,
    otherwise the id is purged or kept by the number found in the name,
    whatever its activation time, and both errors do occur. *)
Theorem cleanup_reads_second_segment :
  (∀ p s rest : string,
     Py.contains "_" p = false → Py.contains "_" s = false →
     Py.split "_" (p +:+ "_" +:+ s) !! 1%nat = Some s ∧
     Py.split "_" (p +:+ "_" +:+ s +:+ "_" +:+ rest) !! 1%nat = Some s) ∧
  (∀ (n : string) (a : Z),
     Py.contains "_" n = false → activation_key (reserve_id n a) = Ok a) ∧
  (∀ (n : string) (a : Z),
     Py.contains "_" n = true →
     ∃ p q, n = p +:+ "_" +:+ q ∧ Py.contains "_" p = false ∧
       activation_key (reserve_id n a) =
         match Py.int (first_segment "_" q) with
         | Some k => Ok k
         | None => Raise ValueError
         end) ∧
  (∀ w now b (i : string) (e : exn),
     i ∈ last_active_reserves b → activation_key i = Raise e →
     ∃ e', cleanup_expired_reserves w now b = (b, Raise e')) ∧
  (∀ w now b (n : string) (a k : Z),
     (∀ i, i ∈ last_active_reserves b → ∃ k', activation_key i = Ok k') →
     reserve_id n a ∈ last_active_reserves b →
     activation_key (reserve_id n a) = Ok k →
     (reserve_id n a ∈ last_active_reserves
                         (cleanup_expired_reserves w now b).1
      ↔ ¬ k < now - 7200)) ∧
  (∃ (n : string) (a now : Z),
     Py.contains "_" n = true ∧ ¬ a ≤ now - 7200 ∧
     ∀ w b, last_active_reserves b = {[reserve_id n a]} →
       reserve_id n a ∉ last_active_reserves
                          (cleanup_expired_reserves w now b).1) ∧
  (∃ (n : string) (a now : Z),
     Py.contains "_" n = true ∧ a ≤ now - 7200 ∧
     ∀ w b, last_active_reserves b = {[reserve_id n a]} →
       reserve_id n a ∈ last_active_reserves
                          (cleanup_expired_reserves w now b).1).
Proof.
  assert (∀ w now b (n : string) (a k : Z),
     (∀ i, i ∈ last_active_reserves b → ∃ k', activation_key i = Ok k') →
     reserve_id n a ∈ last_active_reserves b →
     activation_key (reserve_id n a) = Ok k →
     (reserve_id n a ∈ last_active_reserves
                         (cleanup_expired_reserves w now b).1
      ↔ ¬ k < now - 7200)) as Hparsed.
  { intros w now b n a k Hall Hin Hk.
    destruct (cleanup_parsed w now b Hall) as (b' & -> & Hchar). simpl.
    rewrite Hchar. split.
    - intros [_ (k' & Hk' & Hge)]. rewrite Hk in Hk'. by injection Hk' as <-.
    - intros Hge. split; [done|]. by exists k. }
  assert (∀ (n : string) (a k : Z) b,
     activation_key (reserve_id n a) = Ok k →
     last_active_reserves b = {[reserve_id n a]} →
     ∀ i, i ∈ last_active_reserves b → ∃ k', activation_key i = Ok k')
    as Hsingle.
  { intros n a k b Hk Hb i Hi. rewrite Hb in Hi.
    apply elem_of_singleton in Hi as ->. by exists k. }
  repeat apply conj.
  - intros p s rest Hp Hs.
    change ("_" +:+ s) with (String "_" s).
    change ("_" +:+ s +:+ "_" +:+ rest)
      with (String "_" (s +:+ String "_" rest)).
    rewrite !second_segment by done. rewrite first_segment_app.
    unfold first_segment. by rewrite split_no_sep.
  - apply activation_key_plain.
  - intros n a Hn. destruct (contains_first_sep _ _ Hn) as (p & q & -> & Hp).
    exists p, q. split; [done|]. split; [done|].
    by apply activation_key_underscored.
  - apply cleanup_raises.
  - exact Hparsed.
  - exists "Tactical_5", 10000, 10000. split; [done|]. split; [lia|].
    intros w b Hb.
    assert (activation_key (reserve_id "Tactical_5" 10000) = Ok 5) as Hk
      by done.
    rewrite (Hparsed w 10000 b _ _ 5); [lia|by eapply Hsingle| |done].
    rewrite Hb. by apply elem_of_singleton.
  - exists "Tactical_99999", 0, 10000. split; [done|]. split; [lia|].
    intros w b Hb.
    assert (activation_key (reserve_id "Tactical_99999" 0) = Ok 99999) as Hk
      by done.
    rewrite (Hparsed w 10000 b _ _ 99999); [lia|by eapply Hsingle| |done].
    rewrite Hb. by apply elem_of_singleton.
Qed.

End Runs.

(* ===================================================================== *)
(** ** The diff of a snapshot *)
(* ===================================================================== *)

Section Diff.

Context {number : Type}.
Variable str_number : number -> string.
Variable strftime_local : Z -> result string.

Local Abbreviation scan := (scan str_number strftime_local) (only parsing).
Local Abbreviation diff := (diff str_number strftime_local) (only parsing).
Local Abbreviation spec_newly_activated :=
  (spec_newly_activated str_number strftime_local) (only parsing).

Lemma filter_none {A : Type} (P : A → Prop) `{!∀ x, Decision (P x)}
    (l : list A) :
  (∀ x, x ∈ l → ¬ P x) → filter P l = [].
Proof.
  induction l as [|x l IH]; intros Hno; [done|].
  rewrite filter_cons_False by (apply Hno; by left).
  apply IH. intros y Hy. apply Hno. by right.
Qed.

(** The loop, whatever it starts from, adds the ids of the active
    entries and appends the texts of the new ones in order, as long as
    each entry has a stock item and each new one can be formatted. *)
Lemma scan_refines (last : gset string) (reserves : list (reserve number))
    (current_active : gset string) (newly_activated : list string) :
  Forall well_formed reserves →
  formattable str_number strftime_local last reserves →
  scan last (current_active, newly_activated) reserves
  = Ok (current_active ∪ spec_current_active reserves,
        (newly_activated ++ spec_newly_activated last reserves)%list).
Proof.
  intros Hwf. revert current_active newly_activated.
  induction Hwf as [|r rs Hr _ IH]; intros ca na Hfmt.
  - unfold spec_current_active, Bot.spec_newly_activated. simpl.
    by rewrite app_nil_r, (right_id_L ∅ (∪)).
  - apply Forall_cons in Hfmt as [Hfr Hfrs].
    specialize (fun ca na => IH ca na Hfrs).
    unfold spec_current_active, Bot.spec_newly_activated in *.
    destruct r as [nm [|stock stocks]]; [done|].
    set (r := {| name := nm; in_stock := stock :: stocks |}) in *.
    assert (entry_active r = String.eqb (status stock) "active") as Hea
      by done.
    assert (entry_id r = reserve_id nm (activated_at stock)) as Hid
      by reflexivity.
    assert (entry_text str_number strftime_local r
            = reserve_info str_number strftime_local nm stock) as Htext
      by done.
    cbn [Bot.scan]. unfold scan_step. cbn [in_stock name r].
    destruct (String.eqb (status stock) "active") eqn:Hact.
    + rewrite (filter_cons_True (fun r => entry_active r = true)) by done.
      rewrite fmap_cons, list_to_set_cons, Hid.
      destruct (decide (reserve_id nm (activated_at stock) ∈ last))
        as [Hin|Hnotin].
      * rewrite filter_cons_False by (rewrite Hid; by intros [_ ?]).
        rewrite IH. cbn [fst snd].
        by rewrite (assoc_L (∪)), (comm_L (∪) ca).
      * rewrite filter_cons_True by (by rewrite Hid).
        assert (formats str_number strftime_local r = true) as Hf
          by (apply Hfr; [done|by rewrite Hid]).
        unfold formats in Hf. rewrite fmap_cons. unfold entry_info at 1.
        rewrite Htext in *.
        destruct (reserve_info str_number strftime_local nm stock)
          as [info|e]; [|done].
        rewrite IH. cbn [fst snd].
        by rewrite <- app_assoc, (assoc_L (∪)), (comm_L (∪) ca).
    + rewrite (filter_cons_False (fun r => entry_active r = true))
        by (by rewrite Hea).
      rewrite filter_cons_False by (rewrite Hea; by intros [? _]).
      by rewrite IH.
Qed.

(** A loop that returned met no entry without stock item and no new
    entry it could not format. *)
Lemma scan_ok_inv (last : gset string) (reserves : list (reserve number))
    (acc found : gset string * list string) :
  scan last acc reserves = Ok found →
  Forall well_formed reserves ∧ formattable str_number strftime_local last reserves.
Proof.
  revert acc. induction reserves as [|r rs IH]; intros acc Hok.
  - split; constructor.
  - cbn [Bot.scan] in Hok.
    destruct (scan_step str_number strftime_local last acc r)
      as [acc'|e] eqn:Hstep; [|done].
    destruct (IH _ Hok) as [Hwf Hfmt].
    unfold scan_step in Hstep.
    destruct r as [nm [|stock stocks]]; [done|]. cbn [in_stock name] in Hstep.
    split; constructor; try done.
    unfold entry_active, entry_id, formats, entry_text. cbn [in_stock name].
    intros Hact Hnew. rewrite Hact in Hstep.
    rewrite decide_False in Hstep by exact Hnew.
    by destruct (reserve_info str_number strftime_local nm stock).
Qed.

(** An entry without stock item, or a new entry that cannot be
    formatted, stops the loop with an exception. *)
Lemma scan_raises (last : gset string) (reserves : list (reserve number))
    (acc : gset string * list string) :
  ¬ (Forall well_formed reserves ∧ formattable str_number strftime_local last reserves) →
  ∃ e, scan last acc reserves = Raise e.
Proof.
  intros Hbad. destruct (scan last acc reserves) as [found|e] eqn:Hscan.
  - destruct Hbad. by apply (scan_ok_inv _ _ _ _ Hscan).
  - by exists e.
Qed.

Lemma diff_ok_well_formed (last : gset string)
    (reserves : list (reserve number)) (found : gset string * list string) :
  diff last reserves = Ok found → Forall well_formed reserves.
Proof. intros Hok. by apply (scan_ok_inv _ _ _ _ Hok). Qed.

Lemma diff_ok_formattable (last : gset string)
    (reserves : list (reserve number)) (found : gset string * list string) :
  diff last reserves = Ok found → formattable str_number strftime_local last reserves.
Proof. intros Hok. by apply (scan_ok_inv _ _ _ _ Hok). Qed.

Lemma diff_refines (last : gset string) (reserves : list (reserve number)) :
  Forall well_formed reserves →
  formattable str_number strftime_local last reserves →
  diff last reserves
  = Ok (spec_current_active reserves, spec_newly_activated last reserves).
Proof.
  intros Hwf Hfmt. unfold Bot.diff. rewrite scan_refines by done.
  simpl. by rewrite (left_id_L ∅ (∪)).
Qed.

Lemma entry_id_in_current_active (reserves : list (reserve number))
    (r : reserve number) :
  r ∈ reserves → entry_active r = true →
  entry_id r ∈ spec_current_active reserves.
Proof.
  intros Hin Hact. unfold spec_current_active.
  apply elem_of_list_to_set, list_elem_of_fmap.
  exists r. split; [done|]. by apply list_elem_of_filter.
Qed.

(** Nothing is formatted when every active entry is already known. *)
Lemma formattable_known (reserves : list (reserve number)) :
  formattable str_number strftime_local (spec_current_active reserves) reserves.
Proof.
  apply Forall_forall. intros r Hr Hact Hnew.
  destruct Hnew. by apply entry_id_in_current_active.
Qed.

Lemma formattable_none_active (last : gset string)
    (reserves : list (reserve number)) :
  filter (fun r => entry_active r = true) reserves = [] →
  formattable str_number strftime_local last reserves.
Proof.
  intros Hnone. apply Forall_forall. intros r Hr Hact _.
  assert (r ∈ filter (fun r => entry_active r = true) reserves) as Hin
    by by apply list_elem_of_filter.
  rewrite Hnone in Hin. by apply elem_of_nil in Hin.
Qed.

(** C1, amended.  On a snapshot of entries (each with its stock item):
    when every new active entry can be formatted, [diff] returns as
    [current_active] exactly the set of ids (name, underscore, decimal
    activation time) of the entries whose status is [active], and as
    [newly_activated] exactly the active entries whose id is not in the
    previous state, in snapshot order, as their announcement texts; with
    no active entry it returns the empty set and the empty list; and when
    a new active entry cannot be formatted it raises. *)
Theorem diff_filters_active (previous : gset string)
    (snapshot : list (reserve number)) :
  Forall well_formed snapshot →
  (formattable str_number strftime_local previous snapshot →
   diff previous snapshot
   = Ok (list_to_set
           (entry_id <$> filter (fun r => entry_active r = true) snapshot),
         entry_info str_number strftime_local <$>
           filter (fun r => entry_active r = true ∧ entry_id r ∉ previous)
                  snapshot)
   ∧ Forall (fun r => entry_text str_number strftime_local r
                      = Ok (entry_info str_number strftime_local r))
       (filter (fun r => entry_active r = true ∧ entry_id r ∉ previous)
               snapshot))
  ∧ (filter (fun r => entry_active r = true) snapshot = [] →
     diff previous snapshot = Ok (∅, []))
  ∧ (¬ formattable str_number strftime_local previous snapshot →
     ∃ e, diff previous snapshot = Raise e).
Proof.
  intros Hwf. split; [|split].
  - intros Hfmt. split; [by apply diff_refines|].
    apply Forall_forall. intros r [[Hact Hnew] Hr]%list_elem_of_filter.
    pose proof (proj1 (Forall_forall _ _) Hfmt r Hr Hact Hnew) as Hf.
    unfold formats in Hf. unfold entry_info.
    by destruct (entry_text str_number strftime_local r).
  - intros Hnone.
    rewrite diff_refines by (done || by apply formattable_none_active).
    unfold spec_current_active, Bot.spec_newly_activated.
    rewrite Hnone.
    rewrite filter_none; [done|].
    intros r Hr [Hact _].
    assert (r ∈ filter (fun r => entry_active r = true) snapshot) as Hin
      by by apply list_elem_of_filter.
    rewrite Hnone in Hin. by apply elem_of_nil in Hin.
  - intros Hbad. apply scan_raises. by intros [_ ?].
Qed.

(** C9.  Running [diff] again on the same snapshot from the
    [current_active] of the first run reports nothing new. *)
Theorem diff_idempotent (previous : gset string)
    (snapshot : list (reserve number))
    (current_active : gset string) (newly_activated : list string) :
  diff previous snapshot = Ok (current_active, newly_activated) →
  diff current_active snapshot = Ok (current_active, []).
Proof.
  intros Hfirst. pose proof (diff_ok_well_formed _ _ _ Hfirst) as Hwf.
  pose proof (diff_ok_formattable _ _ _ Hfirst) as Hfmt.
  rewrite diff_refines in Hfirst by done. injection Hfirst as <- _.
  rewrite diff_refines by (done || apply formattable_known).
  f_equal. f_equal.
  unfold Bot.spec_newly_activated.
  rewrite filter_none; [done|].
  intros r Hr [Hact Hnew]. apply Hnew.
  by apply entry_id_in_current_active.
Qed.

End Diff.

(* ===================================================================== *)
(** ** The credential *)
(* ===================================================================== *)

Section Auth.

Context {number : Type}.
Implicit Types (w : world number) (b : DiscordBot) (a : WargamingAuth).

Lemma token_fresh_usable a (now : Z) : token_fresh a now = true → usable a now.
Proof.
  unfold token_fresh, usable, Py.truthy.
  destruct (access_token a) as [[|c tok]|]; [done| |done].
  destruct (expires_at a) as [e|]; [|done]. simpl.
  intros [_ Hlt%Z.ltb_lt]%andb_true_iff. by exists (String c tok), e.
Qed.

Lemma usable_token_fresh a (now : Z) :
  0 ≤ now → usable a now → token_fresh a now = true.
Proof.
  unfold token_fresh, usable, Py.truthy.
  intros Hnow (tok & e & -> & Htok & -> & Hlt).
  destruct tok; [done|]. simpl.
  apply andb_true_iff. split; [|by apply Z.ltb_lt].
  apply negb_true_iff, Z.eqb_neq. lia.
Qed.

Lemma save_tokens_run w b :
  save_tokens w b = (saved_tokens w (auth b) b, Ok tt).
Proof.
  unfold save_tokens, saved_tokens. destruct b as [a l tf rf t]. run.
  disk_cases w; by rewrite <- ?app_assoc.
Qed.

Lemma refresh_run_ok w b (code : Z) (tok rtok : string) (life : Z) :
  prolongate w = Reply code (prolongate_ok tok rtok life) →
  refresh_access_token w b =
  (saved_tokens w
     {| access_token := Some tok; refresh_token := Some rtok;
        expires_at := Some (clock_refresh w + life) |}
     (after [PostProlongate (refresh_token (auth b))] b), Ok tt).
Proof.
  intros Hreply. unfold refresh_access_token, save_tokens. rewrite Hreply.
  unfold saved_tokens, after. destruct b as [a l tf rf t]. run. simpl.
  disk_cases w; by rewrite <- ?app_assoc.
Qed.

Lemma refresh_run_fails w b :
  prolongate_fails w →
  ∃ e, refresh_access_token w b =
       (after [PostProlongate (refresh_token (auth b))] b, Raise e).
Proof.
  unfold prolongate_fails, refresh_access_token, after.
  destruct b as [a l tf rf t]. run.
  destruct (prolongate w) as [|code|code body]; simpl; [by eauto..|].
  intros Hst. rewrite decide_False by done. by eauto.
Qed.

Lemma get_valid_token_run w b :
  get_valid_token w b =
  if token_fresh (auth b) (clock_token w) then (b, Ok (access_token (auth b)))
  else if Py.truthy (refresh_token (auth b)) then
    match refresh_access_token w b with
    | (b', Ok _) => (b', Ok (access_token (auth b')))
    | (b', Raise e) => (after [Log (ErrorRefreshingToken e)] b', Ok None)
    end
  else (b, Ok None).
Proof.
  unfold get_valid_token, after. run.
  destruct (token_fresh _ _); [done|].
  destruct (Py.truthy _); [|done].
  by destruct (refresh_access_token w b) as [b' [[]|e]].
Qed.

(** [get_valid_token] returns normally whatever happens. *)
Lemma get_valid_token_returns w b :
  ∃ b' r, get_valid_token w b = (b', Ok r).
Proof.
  rewrite get_valid_token_run.
  destruct (token_fresh _ _); [by eauto|].
  destruct (Py.truthy _); [|by eauto].
  destruct (refresh_access_token w b) as [b' [[]|e]]; by eauto.
Qed.

(** C3.  With a token and [now < expiresAt - 300], [get_valid_token]
    returns the stored token and touches nothing (no request, no write).
    Otherwise, with a refresh token, it refreshes: on success it returns
    the new token; when the refresh raises, the exception is logged and
    the answer is [None].  Without a refresh token the answer is [None].
    It never raises. *)
Theorem get_valid_token_cases :
  (∀ w b, 0 ≤ clock_token w → usable (auth b) (clock_token w) →
     get_valid_token w b = (b, Ok (access_token (auth b)))) ∧
  (∀ w b (code : Z) (tok rtok : string) (life : Z),
     ¬ usable (auth b) (clock_token w) →
     Py.truthy (refresh_token (auth b)) = true →
     prolongate w = Reply code (prolongate_ok tok rtok life) →
     ∃ b', get_valid_token w b = (b', Ok (Some tok)) ∧
       refresh_access_token w b = (b', Ok tt) ∧
       access_token (auth b') = Some tok) ∧
  (∀ w b b' (e : exn),
     ¬ usable (auth b) (clock_token w) →
     Py.truthy (refresh_token (auth b)) = true →
     refresh_access_token w b = (b', Raise e) →
     get_valid_token w b = (after [Log (ErrorRefreshingToken e)] b', Ok None)) ∧
  (∀ w b,
     ¬ usable (auth b) (clock_token w) →
     Py.truthy (refresh_token (auth b)) = false →
     get_valid_token w b = (b, Ok None)) ∧
  (∀ w b, ∃ b' r, get_valid_token w b = (b', Ok r)).
Proof.
  assert (∀ a now, ¬ usable a now → token_fresh a now = false) as Hstale.
  { intros a now Hno. destruct (token_fresh a now) eqn:E; [|done].
    by apply token_fresh_usable in E. }
  repeat apply conj.
  - intros w b Hnow Huse. rewrite get_valid_token_run.
    by rewrite usable_token_fresh.
  - intros w b code tok rtok life Hno Hrt Hreply.
    rewrite get_valid_token_run, (Hstale _ _ Hno), Hrt.
    rewrite (refresh_run_ok w b code tok rtok life Hreply).
    eexists. split; [done|]. by split.
  - intros w b b' e Hno Hrt Hraise.
    by rewrite get_valid_token_run, (Hstale _ _ Hno), Hrt, Hraise.
  - intros w b Hno Hrt.
    by rewrite get_valid_token_run, (Hstale _ _ Hno), Hrt.
  - apply get_valid_token_returns.
Qed.

(** An answer with status ok that lacks the data or one of the three
    fields: the fields are replaced one after the other, so those read
    before the missing one are already replaced when [KeyError] is
    raised. *)
Lemma refresh_run_partial w b (code : Z) (data : option refresh_data) :
  prolongate w = Reply code {| r_status := Some "ok"; r_data := data |} →
  (∀ tok rtok life, data ≠ Some {| d_access_token := Some tok;
                                   d_refresh_token := Some rtok;
                                   d_expires_at := Some life |}) →
  ∃ b' key, refresh_access_token w b = (b', Raise (KeyError key)) ∧
    token_file b' = token_file b ∧
    expires_at (auth b') = expires_at (auth b) ∧
    access_token (auth b')
    = match data with
      | Some {| d_access_token := Some tok |} => Some tok
      | _ => access_token (auth b)
      end ∧
    refresh_token (auth b')
    = match data with
      | Some {| d_access_token := Some _; d_refresh_token := Some rtok |} =>
          Some rtok
      | _ => refresh_token (auth b)
      end.
Proof.
  intros Hreply Hpart. unfold refresh_access_token. rewrite Hreply.
  destruct b as [a l tf rf t]. run. simpl.
  destruct data as [[[tok|] [rtok|] [life|]]|]; simpl;
    try (by eexists _, _); by destruct (Hpart tok rtok life).
Qed.

(** C4, amended.  On a successful answer (status ok with the three
    fields) [refresh_access_token] replaces the three fields (the expiry
    is now plus the lifetime sent by the server) and writes them out: the
    file holds them when the write goes through.  On a transport error,
    an undecodable body or a status other than ok it raises and leaves
    credential and token file as they were, so that [get_valid_token] on
    an expired token, the endpoint still failing, answers [None] with the
    credential unchanged.  It is not atomic: on a status ok that lacks a
    field it raises [KeyError] with the fields read before the missing one
    already replaced; the expiry and the token file are unchanged. *)
Theorem refresh_replaces_or_keeps :
  (∀ w b (code : Z) (tok rtok : string) (life : Z),
     prolongate w = Reply code (prolongate_ok tok rtok life) →
     ∃ b', refresh_access_token w b = (b', Ok tt) ∧
       auth b' = {| access_token := Some tok; refresh_token := Some rtok;
                    expires_at := Some (clock_refresh w + life) |} ∧
       WriteTokens (auth b') ∈ trace b' ∧
       token_file b' = written w (auth b') (token_file b)) ∧
  (∀ w b, prolongate_fails w →
     ∃ b' e, refresh_access_token w b = (b', Raise e) ∧
       auth b' = auth b ∧ token_file b' = token_file b ∧
       trace b' = (trace b ++ [PostProlongate (refresh_token (auth b))])%list) ∧
  (∀ w b, prolongate_fails w →
     ¬ usable (auth b) (clock_token w) →
     ∃ b', get_valid_token w b = (b', Ok None) ∧
       auth b' = auth b ∧ token_file b' = token_file b) ∧
  (∀ w b (code : Z) (data : option refresh_data),
     prolongate w = Reply code {| r_status := Some "ok"; r_data := data |} →
     (∀ tok rtok life, data ≠ Some {| d_access_token := Some tok;
                                      d_refresh_token := Some rtok;
                                      d_expires_at := Some life |}) →
     ∃ b' key, refresh_access_token w b = (b', Raise (KeyError key)) ∧
       token_file b' = token_file b ∧
       expires_at (auth b') = expires_at (auth b) ∧
       access_token (auth b')
       = match data with
         | Some {| d_access_token := Some tok |} => Some tok
         | _ => access_token (auth b)
         end ∧
       refresh_token (auth b')
       = match data with
         | Some {| d_access_token := Some _; d_refresh_token := Some rtok |} =>
             Some rtok
         | _ => refresh_token (auth b)
         end).
Proof.
  repeat apply conj.
  - intros w b code tok rtok life Hreply.
    rewrite (refresh_run_ok w b code tok rtok life Hreply).
    eexists. split; [done|]. split; [done|]. split; [|done].
    simpl. apply elem_of_app. right. by left.
  - intros w b Hfail. destruct (refresh_run_fails w b Hfail) as [e ->].
    by eexists _, e.
  - intros w b Hfail Hno. rewrite get_valid_token_run.
    destruct (token_fresh _ _) eqn:E; [by apply token_fresh_usable in E|].
    destruct (Py.truthy _); [|by eauto].
    destruct (refresh_run_fails w b Hfail) as [e ->]. by eauto.
  - apply refresh_run_partial.
Qed.

(** A status [ok] with a field missing is neither: the fields read before
    the missing one are already replaced when [KeyError] is raised. *)
Lemma refresh_truncated_answer w b (code : Z) (tok : string) :
  prolongate w = Reply code
    {| r_status := Some "ok";
       r_data := Some {| d_access_token := Some tok;
                         d_refresh_token := None;
                         d_expires_at := None |} |} →
  ∃ b', refresh_access_token w b = (b', Raise (KeyError "refresh_token")) ∧
    auth b' = {| access_token := Some tok;
                 refresh_token := refresh_token (auth b);
                 expires_at := expires_at (auth b) |} ∧
    token_file b' = token_file b.
Proof.
  intros Hreply. unfold refresh_access_token. rewrite Hreply.
  destruct b as [a l tf rf t]. run. simpl. by eauto.
Qed.

End Auth.

(* ===================================================================== *)
(** ** Operations of the credential side *)
(* ===================================================================== *)

Section AuthOnly.

Lemma auth_only_ret {A : Type} (x : A) : auth_only (mret x).
Proof.
  intros a tf. exists a, tf, [], (Ok x). split; [done|].
  intros s f t. run. by rewrite app_nil_r.
Qed.

Lemma auth_only_raise {A : Type} (e : exn) : auth_only (raise (A:=A) e).
Proof.
  intros a tf. exists a, tf, [], (Raise e). split; [done|].
  intros s f t. run. by rewrite app_nil_r.
Qed.

Lemma auth_only_emit (e : event) : auth_event e = true → auth_only (emit e).
Proof.
  intros He a tf. exists a, tf, [e], (Ok tt). split; [by constructor|].
  intros s f t. by run.
Qed.

Lemma auth_only_gets {A : Type} (g : WargamingAuth → A) :
  auth_only (gets (fun b => g (auth b))).
Proof.
  intros a tf. exists a, tf, [], (Ok (g a)). split; [done|].
  intros s f t. run. by rewrite app_nil_r.
Qed.

Lemma auth_only_set_auth (g : WargamingAuth → WargamingAuth) :
  auth_only (modify (fun b => with_auth (g (auth b)) b)).
Proof.
  intros a tf. exists (g a), tf, [], (Ok tt). split; [done|].
  intros s f t. run. by rewrite app_nil_r.
Qed.

Lemma auth_only_set_access_token (v : option string) :
  auth_only (set_access_token v).
Proof.
  apply (auth_only_set_auth (fun a =>
    {| access_token := v; refresh_token := refresh_token a;
       expires_at := expires_at a |})).
Qed.

Lemma auth_only_set_refresh_token (v : option string) :
  auth_only (set_refresh_token v).
Proof.
  apply (auth_only_set_auth (fun a =>
    {| access_token := access_token a; refresh_token := v;
       expires_at := expires_at a |})).
Qed.

Lemma auth_only_set_expires_at (v : option Z) :
  auth_only (set_expires_at v).
Proof.
  apply (auth_only_set_auth (fun a =>
    {| access_token := access_token a; refresh_token := refresh_token a;
       expires_at := v |})).
Qed.

Lemma auth_only_set_token_file (v : file WargamingAuth) :
  auth_only (modify (with_token_file v)).
Proof.
  intros a tf. exists a, v, [], (Ok tt). split; [done|].
  intros s f t. run. by rewrite app_nil_r.
Qed.

Lemma auth_only_bind {A B : Type} (m : M A) (k : A → M B) :
  auth_only m → (∀ x, auth_only (k x)) → auth_only (m ≫= k).
Proof.
  intros Hm Hk a tf.
  destruct (Hm a tf) as (a1 & tf1 & evs1 & [x|e] & Hev1 & Hrun1).
  - destruct (Hk x a1 tf1) as (a2 & tf2 & evs2 & r & Hev2 & Hrun2).
    exists a2, tf2, (evs1 ++ evs2)%list, r.
    split; [by apply Forall_app|].
    intros s f t. unfold mbind, M_bind. rewrite Hrun1, Hrun2.
    by rewrite <- app_assoc.
  - exists a1, tf1, evs1, (Raise e). split; [done|].
    intros s f t. unfold mbind, M_bind. by rewrite Hrun1.
Qed.

Lemma auth_only_try {A : Type} (m : M A) (h : exn → M A) :
  auth_only m → (∀ e, auth_only (h e)) → auth_only (try_except m h).
Proof.
  intros Hm Hh a tf.
  destruct (Hm a tf) as (a1 & tf1 & evs1 & [x|e] & Hev1 & Hrun1).
  - exists a1, tf1, evs1, (Ok x). split; [done|].
    intros s f t. unfold try_except. by rewrite Hrun1.
  - destruct (Hh e a1 tf1) as (a2 & tf2 & evs2 & r & Hev2 & Hrun2).
    exists a2, tf2, (evs1 ++ evs2)%list, r.
    split; [by apply Forall_app|].
    intros s f t. unfold try_except. rewrite Hrun1, Hrun2.
    by rewrite <- app_assoc.
Qed.

(** What [auth_only] gives at a bot. *)
Lemma auth_only_at {A : Type} (m : M A) (b : DiscordBot) :
  auth_only m →
  ∃ b' r evs, m b = (b', r) ∧
    last_active_reserves b' = last_active_reserves b ∧
    reserves_state_file b' = reserves_state_file b ∧
    trace b' = (trace b ++ evs)%list ∧
    Forall (fun e => auth_event e = true) evs ∧
    ∀ s f, m (with_reserves s f b) = (with_reserves s f b', r).
Proof.
  intros Hm. destruct b as [a l tf rf t].
  destruct (Hm a tf) as (a' & tf' & evs & r & Hev & Hrun).
  eexists _, r, evs. split; [apply Hrun|]. repeat split; try done.
  intros s f. unfold with_reserves, with_reserves_state_file,
    with_last_active_reserves. simpl. by rewrite Hrun.
Qed.

Lemma reserve_writes_auth (t evs : list event) :
  Forall (fun e => auth_event e = true) evs →
  reserve_writes (t ++ evs) = reserve_writes t.
Proof.
  intros Hev. unfold reserve_writes. rewrite omap_app.
  rewrite <- (app_nil_r (omap _ t)) at 2. f_equal.
  induction Hev as [|e evs He _ IH]; [done|].
  simpl. by destruct e.
Qed.

Lemma reserve_requests_auth (t evs : list event) :
  Forall (fun e => auth_event e = true) evs →
  reserve_requests (t ++ evs) = reserve_requests t.
Proof.
  intros Hev. unfold reserve_requests. rewrite omap_app.
  rewrite <- (app_nil_r (omap _ t)) at 2. f_equal.
  induction Hev as [|e evs He _ IH]; [done|].
  simpl. by destruct e.
Qed.

End AuthOnly.

(* ===================================================================== *)
(** ** The poll cycle *)
(* ===================================================================== *)

Ltac auth_only_step :=
  first
    [ apply auth_only_ret
    | apply auth_only_raise
    | apply auth_only_emit; reflexivity
    | apply (auth_only_gets (fun a => a))
    | apply (auth_only_gets access_token)
    | apply auth_only_set_access_token
    | apply auth_only_set_refresh_token
    | apply auth_only_set_expires_at
    | apply auth_only_set_token_file
    | apply auth_only_bind; [|intros ?]
    | apply auth_only_try; [|intros ?]
    | match goal with
      | |- auth_only (match ?x with _ => _ end) => destruct x
      | |- auth_only (from_option _ _ ?x) => destruct x; simpl
      end ].

Section Cycle.

Context {number : Type}.
Variable str_number : number -> string.
Variable strftime_local : Z -> result string.
Variable quote : string -> string.
Variables WG_APPLICATION_ID redirect_uri : string.
Implicit Types (w : world number) (b : DiscordBot).

Local Abbreviation url := (full_auth_url quote WG_APPLICATION_ID redirect_uri).
Local Abbreviation start_oauth_flow :=
  (start_oauth_flow quote WG_APPLICATION_ID redirect_uri).
Local Abbreviation expiry_warning :=
  (expiry_warning quote WG_APPLICATION_ID redirect_uri).
Local Abbreviation diff := (diff str_number strftime_local).
Local Abbreviation fetch_and_diff := (fetch_and_diff str_number strftime_local).
Local Abbreviation poll_body :=
  (poll_body str_number strftime_local quote WG_APPLICATION_ID redirect_uri).
Local Abbreviation fetch_and_post_reserves :=
  (fetch_and_post_reserves str_number strftime_local quote WG_APPLICATION_ID
     redirect_uri).

Lemma save_tokens_auth_only w : auth_only (save_tokens w).
Proof.
  unfold save_tokens, log, open_for_writing, json_dump, close_file.
  repeat auth_only_step.
Qed.

Lemma refresh_auth_only w : auth_only (refresh_access_token w).
Proof.
  unfold refresh_access_token.
  repeat first [apply save_tokens_auth_only | auth_only_step].
Qed.

Lemma get_valid_token_auth_only w : auth_only (get_valid_token w).
Proof.
  unfold get_valid_token, log.
  repeat first [apply refresh_auth_only | auth_only_step].
Qed.

Lemma start_oauth_flow_auth_only : auth_only start_oauth_flow.
Proof. unfold Bot.start_oauth_flow, log. repeat auth_only_step. Qed.

Lemma send_admin_auth_only w (m : admin_message) :
  auth_only (send_admin_message w m).
Proof. unfold send_admin_message, log. repeat auth_only_step. Qed.

Lemma expiry_warning_auth_only w : auth_only (expiry_warning w).
Proof.
  unfold Bot.expiry_warning.
  repeat first [apply start_oauth_flow_auth_only
               | apply send_admin_auth_only | auth_only_step].
Qed.

(** The first two steps of a cycle: the early warning, then the token. *)
Lemma acquire_auth_only w :
  auth_only (expiry_warning w;; get_valid_token w).
Proof.
  apply auth_only_bind; [apply expiry_warning_auth_only|].
  intros _. apply get_valid_token_auth_only.
Qed.

Lemma acquire_returns w b :
  ∃ b1 token, (expiry_warning w;; get_valid_token w) b = (b1, Ok token).
Proof.
  unfold mbind, M_bind.
  destruct (expiry_warning w b) as [b0 [[]|e]] eqn:Hwarn.
  - destruct (get_valid_token_returns w b0) as (b1 & token & ->). by eauto.
  - exfalso. revert Hwarn. unfold Bot.expiry_warning,
      Bot.start_oauth_flow, send_admin_message, log. run.
    destruct b as [a l tf rf t]; simpl.
    destruct (expires_at a) as [x|]; [|done].
    destruct (x =? 0); [done|]. destruct (_ <? 86400); [|done].
    by destruct (admin_ok w).
Qed.

Lemma poll_body_run w b :
  poll_body w b =
  match (expiry_warning w;; get_valid_token w) b with
  | (b1, Ok token) =>
      if negb (Py.truthy token) then
        (start_oauth_flow ≫= fun u =>
           send_admin_message w (NeedsReauthorization u)) b1
      else fetch_and_diff w token b1
  | (b1, Raise e) => (b1, Raise e)
  end.
Proof.
  unfold Bot.poll_body, mbind, M_bind.
  destruct (expiry_warning w b) as [b0 [[]|e]]; [|done].
  destruct (get_valid_token w b0) as [b1 [token|e]]; [|done].
  by destruct (negb (Py.truthy token)).
Qed.

Lemma reauthorization_run w b :
  (start_oauth_flow ≫= fun u =>
     send_admin_message w (NeedsReauthorization u)) b
  = (after [Log (InfoPleaseVisit url);
            SendAdmin (NeedsReauthorization url);
            Log (if admin_ok w then InfoSentAdminMessage
                 else ErrorAdminMessage)] b, Ok tt).
Proof.
  unfold Bot.start_oauth_flow, send_admin_message, log, after.
  destruct b as [a l tf rf t]. run.
  destruct (admin_ok w); simpl; by rewrite <- !app_assoc.
Qed.

Lemma update_tracking_run w (current_active : gset string) b :
  update_tracking w current_active b =
  if decide (current_active = last_active_reserves b) then (b, Ok tt)
  else (saved_reserves w current_active b, Ok tt).
Proof.
  unfold update_tracking, save_reserves_state, saved_reserves.
  destruct b as [a l tf rf t]. run.
  destruct (decide (current_active = l)); [done|].
  disk_cases w; by rewrite <- ?app_assoc.
Qed.

Lemma fetch_and_diff_run w (token : option string) b :
  fetch_and_diff w token b =
  match cleanup_expired_reserves w (clock_cleanup w) b with
  | (b2, Raise e) => (b2, Raise e)
  | (b2, Ok _) =>
      let b3 := after [GetReserves token] b2 in
      match clanreserves w with
      | Unreachable => (b3, Raise ConnectionError)
      | Undecodable _ => (b3, Raise JSONDecodeError)
      | Reply status_code (Some reserves) =>
          if status_code =? 200 then
            match diff (last_active_reserves b2) reserves with
            | Ok found =>
                match update_tracking w found.1 b3 with
                | (b4, Ok _) => announce w found.2 b4
                | (b4, Raise e) => (b4, Raise e)
                end
            | Raise e => (b3, Raise e)
            end
          else (b3, Ok tt)
      | Reply _ None => (b3, Ok tt)
      end
  end.
Proof.
  unfold Bot.fetch_and_diff, after.
  unfold mbind at 1, M_bind at 1.
  destruct (cleanup_expired_reserves w (clock_cleanup w) b)
    as [b2 [[]|e]]; [|done].
  destruct b2 as [a l tf rf t]. run.
  destruct (clanreserves w) as [|code|code [reserves|]]; try done.
  destruct (code =? 200); [|done]. simpl.
  by destruct (diff l reserves).
Qed.

(** Whatever the body raises is caught and logged. *)
Lemma cycle_run w b :
  fetch_and_post_reserves w b =
  match poll_body w b with
  | (b', Ok _) => (b', Ok tt)
  | (b', Raise e) => (after [Log (ErrorCycle e)] b', Ok tt)
  end.
Proof.
  unfold Bot.fetch_and_post_reserves, try_except, log, after.
  destruct (poll_body w b) as [b' [[]|e]]; [done|]. by run.
Qed.

Lemma cycle_returns w b : ∃ b', fetch_and_post_reserves w b = (b', Ok tt).
Proof.
  rewrite cycle_run. destruct (poll_body w b) as [b' [[]|e]]; by eauto.
Qed.

Lemma update_tracking_writes w (current_active : gset string) b :
  ∃ b', update_tracking w current_active b = (b', Ok tt) ∧
    last_active_reserves b' = current_active ∧
    reserve_writes (trace b') =
      (reserve_writes (trace b) ++
       writes_on_change (last_active_reserves b) current_active)%list ∧
    reserves_state_file b' =
      (if decide (current_active = last_active_reserves b)
       then reserves_state_file b
       else written w current_active (reserves_state_file b)).
Proof.
  rewrite update_tracking_run. unfold writes_on_change.
  destruct (decide (current_active = last_active_reserves b)) as [->|Hne].
  - exists b. by rewrite app_nil_r.
  - eexists. split; [done|]. split; [done|]. split; [|done].
    by rewrite reserve_writes_saved.
Qed.

Lemma cleanup_writes w (now : Z) b b' (r : result ()) :
  cleanup_expired_reserves w now b = (b', r) →
  reserve_writes (trace b') =
    (reserve_writes (trace b) ++
     writes_on_change (last_active_reserves b) (last_active_reserves b'))%list
  ∧ last_active_reserves b' ⊆ last_active_reserves b
  ∧ (∀ e, r = Raise e → b' = b).
Proof.
  rewrite cleanup_run.
  destruct (expired_among _ _) as [expired|e] eqn:Hexp.
  - destruct (decide (expired = ∅)) as [->|Hne].
    + intros [= <- <-]. by rewrite writes_on_change_same, app_nil_r.
    + intros [= <- <-].
      split; [|split; [simpl; by intros i [? _]%elem_of_difference|done]].
      rewrite trace_after, reserve_writes_app, reserve_writes_saved.
      cbn [last_active_reserves after with_trace saved_reserves].
      simpl reserve_writes at 2. rewrite app_nil_r. f_equal.
      unfold writes_on_change. rewrite decide_False; [done|].
      intros Heq. apply Hne. apply set_eq. intros i.
      split; [|by intros ?%elem_of_empty].
      intros Hi. exfalso.
      assert (i ∈ last_active_reserves b) as Hin.
      { apply elem_of_elements.
        by apply (expired_among_subset _ _ _ Hexp). }
      rewrite <- Heq in Hin. apply elem_of_difference in Hin as [_ ?]. done.
  - intros [= <- <-]. rewrite writes_on_change_same, app_nil_r.
    split; [done|]. split; [done|]. by intros ? _.
Qed.

Lemma announce_frame w (newly_activated : list string) b b' (r : result ()) :
  announce w newly_activated b = (b', r) →
  last_active_reserves b' = last_active_reserves b ∧
  reserves_state_file b' = reserves_state_file b ∧
  reserve_writes (trace b') = reserve_writes (trace b).
Proof.
  unfold announce. destruct newly_activated as [|x xs]; run.
  - by intros [= <- <-].
  - destruct (channel w) as [[]|]; destruct b as [a l tf rf t];
      intros [= <- <-]; simpl; rewrite ?reserve_writes_app, ?app_nil_r; done.
Qed.

(** C6.  The reserve state is written on change only.  The caller of
    the diff saves [current_active] exactly when it differs, as a set,
    from the previous state; cleanup saves exactly when it removed an id;
    and a cycle makes no reserve-state write besides these two. *)
Theorem reserve_state_written_on_change_only :
  (∀ w (current_active : gset string) b,
     ∃ b', update_tracking w current_active b = (b', Ok tt) ∧
       last_active_reserves b' = current_active ∧
       reserve_writes (trace b') =
         (reserve_writes (trace b) ++
          if decide (current_active = last_active_reserves b) then []
          else [current_active])%list) ∧
  (∀ w (now : Z) b b' (r : result ()),
     cleanup_expired_reserves w now b = (b', r) →
     last_active_reserves b' ⊆ last_active_reserves b ∧
     reserve_writes (trace b') =
       (reserve_writes (trace b) ++
        if decide (last_active_reserves b' = last_active_reserves b) then []
        else [last_active_reserves b'])%list) ∧
  (∀ w b,
     ∃ b1 token,
       (expiry_warning w;; get_valid_token w) b = (b1, Ok token) ∧
       last_active_reserves b1 = last_active_reserves b ∧
       reserve_writes (trace (fetch_and_post_reserves w b).1) =
         (reserve_writes (trace b) ++
          if Py.truthy token then
            match cleanup_expired_reserves w (clock_cleanup w) b1 with
            | (b2, Ok _) =>
                writes_on_change (last_active_reserves b1)
                                 (last_active_reserves b2) ++
                match clanreserves w with
                | Reply status_code (Some reserves) =>
                    if status_code =? 200 then
                      match diff (last_active_reserves b2) reserves with
                      | Ok found =>
                          writes_on_change (last_active_reserves b2) found.1
                      | Raise _ => []
                      end
                    else []
                | _ => []
                end
            | (_, Raise _) => []
            end
          else [])%list).
Proof.
  repeat apply conj.
  - intros w ca b.
    destruct (update_tracking_writes w ca b) as (b' & Hrun & Hl & Hw & _).
    exists b'. by repeat split.
  - intros w now b b' r Hrun.
    destruct (cleanup_writes w now b b' r Hrun) as (Hw & Hsub & _).
    by split.
  - intros w b.
    destruct (auth_only_at _ b (acquire_auth_only w))
      as (b1 & r & evs & Hacq & Hl1 & _ & Ht1 & Hev & _).
    destruct (acquire_returns w b) as (b1' & token & Hacq').
    rewrite Hacq in Hacq'. injection Hacq' as <- ->.
    exists b1, token. split; [done|]. split; [done|].
    assert (reserve_writes (trace b1) = reserve_writes (trace b)) as Hw1
      by (rewrite Ht1; by apply reserve_writes_auth).
    rewrite cycle_run, poll_body_run, Hacq.
    destruct (Py.truthy token); simpl.
    + rewrite fetch_and_diff_run.
      destruct (cleanup_expired_reserves w (clock_cleanup w) b1)
        as [b2 r2] eqn:Hclean.
      destruct (cleanup_writes w _ b1 b2 r2 Hclean) as (Hw2 & _ & _).
      destruct r2 as [[]|e2].
      * cbv zeta.
        destruct (clanreserves w) as [|code|code [reserves|]]; simpl;
          rewrite ?reserve_writes_app, ?Hw2, ?Hw1; simpl;
          rewrite ?app_nil_r; try done.
        destruct (code =? 200); simpl;
          rewrite ?reserve_writes_app, ?Hw2, ?Hw1; simpl;
          rewrite ?app_nil_r; try done.
        destruct (diff (last_active_reserves b2) reserves)
          as [found|ed]; simpl;
          rewrite ?reserve_writes_app, ?Hw2, ?Hw1; simpl;
          rewrite ?app_nil_r; try done.
        destruct (update_tracking_writes w found.1
                    (after [GetReserves token] b2))
          as (b4 & -> & _ & Hw4 & _).
        destruct (announce w found.2 b4) as [b5 r5] eqn:Hann.
        destruct (announce_frame w _ _ _ _ Hann) as (_ & _ & Hw5).
        assert (reserve_writes (trace b4) =
                (reserve_writes (trace b) ++
                 writes_on_change (last_active_reserves b1)
                   (last_active_reserves b2) ++
                 writes_on_change (last_active_reserves b2) found.1)%list)
          as Hall.
        { rewrite Hw4. simpl. rewrite reserve_writes_app, Hw2, Hw1. simpl.
          by rewrite app_nil_r, <- app_assoc. }
        destruct r5 as [[]|e5]; simpl;
          rewrite ?reserve_writes_app, Hw5, Hall; simpl;
          by rewrite ?app_nil_r.
      * simpl. rewrite reserve_writes_app, Hw2, Hw1. simpl.
        destruct (cleanup_writes w _ b1 b2 _ Hclean) as (_ & _ & Hsame).
        rewrite (Hsame e2 eq_refl), writes_on_change_same.
        by rewrite !app_nil_r.
    + rewrite reauthorization_run. simpl.
      rewrite reserve_writes_app, Hw1. simpl. done.
Qed.

(** C7.  When the cycle gets no token it sends the reauthorization
    request with the authorization URL and ends: the announced set and the
    state file are as before, nothing is written to the state file and
    nothing is fetched, and the cycle runs the same whatever the set and
    the file hold, so neither is read (cleanup included). *)
Theorem cycle_without_token_leaves_reserves w b b1 :
  (expiry_warning w;; get_valid_token w) b = (b1, Ok None) →
  fetch_and_post_reserves w b
  = (after [Log (InfoPleaseVisit url);
            SendAdmin (NeedsReauthorization url);
            Log (if admin_ok w then InfoSentAdminMessage
                 else ErrorAdminMessage)] b1, Ok tt) ∧
  last_active_reserves b1 = last_active_reserves b ∧
  reserves_state_file b1 = reserves_state_file b ∧
  (∃ evs, trace b1 = (trace b ++ evs)%list ∧
          Forall (fun e => auth_event e = true) evs) ∧
  (∀ (s : gset string) (f : file (gset string)),
     fetch_and_post_reserves w (with_reserves s f b)
     = (with_reserves s f
          (after [Log (InfoPleaseVisit url);
                  SendAdmin (NeedsReauthorization url);
                  Log (if admin_ok w then InfoSentAdminMessage
                       else ErrorAdminMessage)] b1), Ok tt)).
Proof.
  intros Hacq.
  destruct (auth_only_at _ b (acquire_auth_only w))
    as (b1' & r & evs & Hacq' & Hl1 & Hf1 & Ht1 & Hev & Hany).
  rewrite Hacq in Hacq'. injection Hacq' as <- <-.
  split; [|split; [done|split; [done|split; [by exists evs|]]]].
  - by rewrite cycle_run, poll_body_run, Hacq, reauthorization_run.
  - intros s f.
    by rewrite cycle_run, poll_body_run, Hany, reauthorization_run.
Qed.

(** C8, amended.  A cycle never raises: what its body raises is caught
    and logged.  With a token and cleanup done, a transport error or an
    undecodable body ends the cycle after the one request with the error
    logged; an answer that is not 200, or that has no data, ends it after
    the one request with nothing logged.  In each case the bot is as
    cleanup left it: no diff, no announcement, no write. *)
Theorem cycle_contains_failures :
  (∀ w b, ∃ b', fetch_and_post_reserves w b = (b', Ok tt)) ∧
  (∀ w b b' (e : exn),
     poll_body w b = (b', Raise e) →
     fetch_and_post_reserves w b = (after [Log (ErrorCycle e)] b', Ok tt)) ∧
  (∀ w b b1 b2 (token : option string),
     (expiry_warning w;; get_valid_token w) b = (b1, Ok token) →
     Py.truthy token = true →
     cleanup_expired_reserves w (clock_cleanup w) b1 = (b2, Ok tt) →
     match clanreserves w with
     | Unreachable =>
         fetch_and_post_reserves w b
         = (after [GetReserves token; Log (ErrorCycle ConnectionError)] b2,
            Ok tt)
     | Undecodable _ =>
         fetch_and_post_reserves w b
         = (after [GetReserves token; Log (ErrorCycle JSONDecodeError)] b2,
            Ok tt)
     | Reply status_code body =>
         status_code ≠ 200 ∨ body = None →
         fetch_and_post_reserves w b = (after [GetReserves token] b2, Ok tt)
     end).
Proof.
  repeat apply conj.
  - apply cycle_returns.
  - intros w b b' e Hraise. by rewrite cycle_run, Hraise.
  - intros w b b1 b2 token Hacq Htok Hclean.
    rewrite cycle_run, poll_body_run, Hacq, Htok. simpl.
    rewrite fetch_and_diff_run, Hclean. cbv zeta.
    destruct (clanreserves w) as [|code|code [reserves|]].
    + unfold after. simpl. by rewrite <- app_assoc.
    + unfold after. simpl. by rewrite <- app_assoc.
    + intros [Hcode|?]; [|done].
      by rewrite (proj2 (Z.eqb_neq code 200) Hcode).
    + done.
Qed.

End Cycle.

(* ===================================================================== *)
(** ** The OAuth callback *)
(* ===================================================================== *)

Section Callback.

Context {number : Type}.
Variable str_number : number -> string.
Variable strftime_local : Z -> result string.
Variable quote : string -> string.
Variables WG_APPLICATION_ID redirect_uri : string.
Implicit Types (w : world number) (b : DiscordBot) (req : request).

Local Abbreviation fetch_and_post_reserves :=
  (fetch_and_post_reserves str_number strftime_local quote WG_APPLICATION_ID
     redirect_uri).
Local Abbreviation handle_oauth_callback :=
  (handle_oauth_callback str_number strftime_local quote WG_APPLICATION_ID
     redirect_uri).

Lemma callback_run_invalid w req b :
  q_status req ≠ Some "ok" ∨ Py.truthy (q_access_token req) = false →
  handle_oauth_callback w req b
  = (after [Log (InfoCallbackParams req); Log ErrorInvalidCallback] b,
     Ok {| text := "Authorization failed"; http_status := 400 |}).
Proof.
  intros Hbad. unfold Bot.handle_oauth_callback, after.
  assert (negb (bool_decide (q_status req = Some "ok"))
          || negb (Py.truthy (q_access_token req)) = true) as ->.
  { destruct Hbad as [Hst| ->]; [|by rewrite orb_true_r].
    by rewrite bool_decide_eq_false_2. }
  destruct b as [a l tf rf t]. run. simpl. by rewrite <- app_assoc.
Qed.

Lemma callback_run_valid w req (expiry : Z) b :
  q_status req = Some "ok" →
  Py.truthy (q_access_token req) = true →
  callback_expiry w req = Some expiry →
  handle_oauth_callback w req b
  = (match channel w with
     | Some _ =>
         (fetch_and_post_reserves w
            (after [SendAdmin (Authorized (q_nickname req));
                    Log (if admin_ok w then InfoSentAdminMessage
                         else ErrorAdminMessage)]
               (callback_stored w req expiry b))).1
     | None => callback_stored w req expiry b
     end, Ok (callback_success req)).
Proof.
  intros Hst Htok Hexp.
  unfold Bot.handle_oauth_callback, callback_stored,
    callback_credential, callback_success, after, send_admin_message.
  rewrite bool_decide_eq_true_2, Htok by done.
  unfold callback_expiry in Hexp.
  assert ((if Py.truthy (q_expires_at req)
           then from_option mret (raise ValueError)
                  (Py.int (default "" (q_expires_at req)))
           else mret (clock_callback w + 86400)) = (mret expiry : M Z)) as ->.
  { destruct (Py.truthy (q_expires_at req)); [by rewrite Hexp|].
    by injection Hexp as <-. }
  destruct b as [a l tf rf t]. run. simpl. rewrite save_tokens_run.
  unfold saved_tokens. simpl.
  destruct (channel w) as [sent|], (admin_ok w); simpl;
    rewrite <- ?app_assoc; simpl;
    try match goal with
      | |- context [Bot.fetch_and_post_reserves _ _ _ _ _ w ?x] =>
          destruct (cycle_returns str_number strftime_local quote
                      WG_APPLICATION_ID redirect_uri w x) as [b' ->]
      end; done.
Qed.

(** An expiry that is no integer: the answer is 500, the two tokens are
    already replaced, the expiry is the old one and nothing is saved. *)
Lemma callback_bad_expiry w req b :
  q_status req = Some "ok" →
  Py.truthy (q_access_token req) = true →
  callback_expiry w req = None →
  handle_oauth_callback w req b
  = (after [Log (InfoCallbackParams req);
            Log (ErrorProcessingCallback ValueError)]
       (with_auth {| access_token := q_access_token req;
                     refresh_token := q_refresh_token req;
                     expires_at := expires_at (auth b) |} b),
     Ok {| text := "Error processing authorization"; http_status := 500 |}).
Proof.
  intros Hst Htok Hexp.
  unfold Bot.handle_oauth_callback, after.
  rewrite bool_decide_eq_true_2, Htok by done.
  unfold callback_expiry in Hexp.
  destruct (Py.truthy (q_expires_at req)); [|done].
  rewrite Hexp. destruct b as [a l tf rf t]. run. simpl.
  by rewrite <- app_assoc.
Qed.

(** C5, amended.  A callback whose status is not ok or whose access token
    is missing is answered 400 and changes nothing but the log.  A valid
    one whose expiry is absent or an integer overwrites the credential
    with the supplied tokens and that expiry (a day from now when absent),
    saves it and is answered 200; the admin notification naming the
    nickname and the immediate poll cycle happen exactly when the channel
    is found, and the answer is 200 whatever that cycle does. *)
Theorem callback_validates_then_stores w req b :
  (q_status req ≠ Some "ok" ∨ Py.truthy (q_access_token req) = false →
   ∃ b', handle_oauth_callback w req b
         = (b', Ok {| text := "Authorization failed"; http_status := 400 |}) ∧
     auth b' = auth b ∧
     token_file b' = token_file b ∧
     last_active_reserves b' = last_active_reserves b ∧
     reserves_state_file b' = reserves_state_file b) ∧
  (∀ expiry : Z,
     q_status req = Some "ok" →
     Py.truthy (q_access_token req) = true →
     callback_expiry w req = Some expiry →
     let stored := callback_stored w req expiry b in
     auth stored = {| access_token := q_access_token req;
                      refresh_token := q_refresh_token req;
                      expires_at := Some expiry |} ∧
     WriteTokens (auth stored) ∈ trace stored ∧
     token_file stored = written w (auth stored) (token_file b) ∧
     handle_oauth_callback w req b
     = (match channel w with
        | Some _ =>
            (fetch_and_post_reserves w
               (after [SendAdmin (Authorized (q_nickname req));
                       Log (if admin_ok w then InfoSentAdminMessage
                            else ErrorAdminMessage)] stored)).1
        | None => stored
        end, Ok (callback_success req))).
Proof.
  split.
  - intros Hbad. rewrite callback_run_invalid by done. by eexists.
  - intros expiry Hst Htok Hexp stored.
    split; [done|]. split; [|split; [done|]].
    + simpl. apply elem_of_app. left. apply elem_of_app. right. by left.
    + by apply callback_run_valid.
Qed.

End Callback.

(* ===================================================================== *)
(** ** Concrete runs *)
(* ===================================================================== *)

Lemma sample_snapshot_well_formed : Forall well_formed sample_snapshot.
Proof. repeat constructor; done. Defined.

Example diff_gold :
  diff Py.str sample_strftime ∅ sample_snapshot
  = Ok ({["Gold_1000"]},
        ["**Gold** (Level 3)" +:+ newline +:+
         "• 2x for random" +:+ newline +:+
         "• Active until: 5000"]).
Proof. vm_compute. reflexivity. Qed.

Lemma sample_snapshot_formattable :
  formattable Py.str sample_strftime ∅ sample_snapshot.
Proof. repeat constructor; intros; vm_compute; reflexivity. Defined.

Lemma diff_filters_active_witness :
  Forall well_formed sample_snapshot ∧
  formattable Py.str sample_strftime ∅ sample_snapshot ∧
  diff Py.str sample_strftime ∅ sample_snapshot
  = Ok (list_to_set
          (entry_id <$> filter (fun r => entry_active r = true)
                          sample_snapshot),
        entry_info Py.str sample_strftime
          <$> filter (fun r => entry_active r = true ∧ entry_id r ∉ (∅ : gset string))
                sample_snapshot) ∧
  entry_id <$> filter (fun r => entry_active r = true) sample_snapshot
  = ["Gold_1000"] ∧
  entry_info Py.str sample_strftime
    <$> filter (fun r => entry_active r = true ∧ entry_id r ∉ (∅ : gset string))
          sample_snapshot
  = ["**Gold** (Level 3)" +:+ newline +:+
     "• 2x for random" +:+ newline +:+
     "• Active until: 5000"].
Proof.
  split; [exact sample_snapshot_well_formed|].
  split; [exact sample_snapshot_formattable|].
  split; [|split; vm_compute; reflexivity].
  exact (proj1 (proj1 (diff_filters_active Py.str sample_strftime ∅
                         sample_snapshot sample_snapshot_well_formed)
                  sample_snapshot_formattable)).
Defined.

(** C1, as stated, fails for an entry whose end time the clock library
    cannot print: the snapshot is well formed and has one new active
    entry, and the loop raises instead of returning. *)
Lemma diff_raises_on_unprintable_time :
  Forall well_formed far_future_snapshot ∧
  entry_id <$> filter (fun r => entry_active r = true) far_future_snapshot
  = ["Gold_1000"] ∧
  diff Py.str sample_strftime ∅ far_future_snapshot = Raise ValueError.
Proof.
  split; [repeat constructor; done|].
  split; vm_compute; reflexivity.
Qed.

Lemma diff_idempotent_witness :
  diff Py.str sample_strftime ∅ sample_snapshot
  = Ok (spec_current_active sample_snapshot,
        spec_newly_activated Py.str sample_strftime ∅ sample_snapshot) ∧
  diff Py.str sample_strftime (spec_current_active sample_snapshot) sample_snapshot
  = Ok (spec_current_active sample_snapshot, []).
Proof.
  assert (diff Py.str sample_strftime ∅ sample_snapshot
          = Ok (spec_current_active sample_snapshot,
                spec_newly_activated Py.str sample_strftime ∅ sample_snapshot)) as H
    by (apply diff_refines;
        [exact sample_snapshot_well_formed|exact sample_snapshot_formattable]).
  split; [exact H|].
  exact (diff_idempotent Py.str sample_strftime ∅ sample_snapshot _ _ H).
Defined.

(** C2, as stated, fails at the boundary: an id activated exactly 7200
    seconds before [now] satisfies [activatedAt ≤ now - 7200] and is
    kept. *)
Lemma cleanup_keeps_id_at_boundary :
  1000 ≤ 8200 - 7200 ∧
  cleanup_expired_reserves quiet_world 8200
    (with_last_active_reserves {[reserve_id "Gold" 1000]} fresh_bot)
  = (with_last_active_reserves {[reserve_id "Gold" 1000]} fresh_bot, Ok tt) ∧
  reserve_id "Gold" 1000
    ∈ last_active_reserves
        (cleanup_expired_reserves quiet_world 8200
           (with_last_active_reserves {[reserve_id "Gold" 1000]} fresh_bot)).1.
Proof.
  split; [lia|].
  assert (cleanup_expired_reserves quiet_world 8200
            (with_last_active_reserves {[reserve_id "Gold" 1000]} fresh_bot)
          = (with_last_active_reserves {[reserve_id "Gold" 1000]} fresh_bot,
             Ok tt)) as H.
  { rewrite cleanup_run. simpl. rewrite elements_singleton. by vm_compute. }
  split; [exact H|]. rewrite H. simpl. by apply elem_of_singleton.
Qed.

Lemma cleanup_removes_strictly_older_witness :
  let b := with_last_active_reserves
             {[reserve_id "Gold" 1000; reserve_id "Silver" 9000]} fresh_bot in
  (∀ i, i ∈ last_active_reserves b →
        ∃ n a, i = reserve_id n a ∧ Py.contains "_" n = false) ∧
  ∃ b', cleanup_expired_reserves quiet_world 10000 b = (b', Ok tt) ∧
    last_active_reserves b' ⊆ last_active_reserves b ∧
    ∀ n a, Py.contains "_" n = false →
           reserve_id n a ∈ last_active_reserves b →
           (reserve_id n a ∈ last_active_reserves b' ↔ ¬ a < 10000 - 7200).
Proof.
  intros b.
  assert (∀ i, i ∈ last_active_reserves b →
               ∃ n a, i = reserve_id n a ∧ Py.contains "_" n = false) as H.
  { intros i Hi. simpl in Hi.
    apply elem_of_union in Hi as [->%elem_of_singleton| ->%elem_of_singleton];
      [by exists "Gold", 1000 | by exists "Silver", 9000]. }
  split; [exact H|].
  exact (cleanup_removes_strictly_older quiet_world 10000 b H).
Defined.

Lemma cleanup_reads_second_segment_witness :
  Py.contains "_" "Gold" = false ∧
  activation_key (reserve_id "Gold" 1000) = Ok 1000.
Proof.
  split; [reflexivity|].
  exact (proj1 (proj2 (cleanup_reads_second_segment (number:=Z)))
           "Gold" 1000 eq_refl).
Defined.

Lemma get_valid_token_cases_witness :
  0 ≤ clock_token serving_world ∧
  usable (auth authorized_bot) (clock_token serving_world) ∧
  get_valid_token serving_world authorized_bot
  = (authorized_bot, Ok (Some "T")).
Proof.
  assert (0 ≤ clock_token serving_world) as H0 by (simpl; lia).
  assert (usable (auth authorized_bot) (clock_token serving_world)) as Hu.
  { exists "T", 2000000000. simpl. repeat split; done. }
  split; [exact H0|]. split; [exact Hu|].
  exact (proj1 (get_valid_token_cases (number:=Z))
           serving_world authorized_bot H0 Hu).
Defined.

Lemma refresh_replaces_or_keeps_witness :
  prolongate_fails quiet_world ∧
  ∃ b' e, refresh_access_token quiet_world authorized_bot = (b', Raise e) ∧
    auth b' = auth authorized_bot ∧
    token_file b' = token_file authorized_bot ∧
    trace b' = (trace authorized_bot ++
                [PostProlongate (refresh_token (auth authorized_bot))])%list.
Proof.
  assert (prolongate_fails quiet_world) as H by exact I.
  split; [exact H|].
  exact (proj1 (proj2 (refresh_replaces_or_keeps (number:=Z)))
           quiet_world authorized_bot H).
Defined.

(** C4, as stated, fails for an answer with status ok that lacks the
    refresh token: an error is signalled and the credential is not the
    prior one, its access token is already the new one. *)
Lemma refresh_half_replaces_credential :
  let w := prolonging_world
             {| r_status := Some "ok";
                r_data := Some {| d_access_token := Some "T2";
                                  d_refresh_token := None;
                                  d_expires_at := None |} |} in
  ∃ b', refresh_access_token w authorized_bot
        = (b', Raise (KeyError "refresh_token")) ∧
    auth authorized_bot
    = {| access_token := Some "T"; refresh_token := Some "R";
         expires_at := Some 2000000000 |} ∧
    auth b' = {| access_token := Some "T2"; refresh_token := Some "R";
                 expires_at := Some 2000000000 |} ∧
    auth b' ≠ auth authorized_bot.
Proof.
  intros w. eexists. split; [vm_compute; reflexivity|].
  split; [reflexivity|]. split; [reflexivity|]. discriminate.
Qed.

Local Abbreviation the_redirect := "http://203.0.113.7:42000/callback".
Local Abbreviation cycle_at :=
  (fetch_and_post_reserves Py.str sample_strftime (fun s => s) "app" the_redirect).
Local Abbreviation callback_at :=
  (handle_oauth_callback Py.str sample_strftime (fun s => s) "app" the_redirect).
Local Abbreviation warning_at :=
  (expiry_warning (fun s => s) "app" the_redirect).

(** C5, as stated, fails when the channel is not found: the callback is
    valid and answered 200, the credential is stored, and neither the
    admin notification nor a poll cycle follows. *)
Lemma callback_without_channel_is_silent :
  q_status sample_request = Some "ok" ∧
  Py.truthy (q_access_token sample_request) = true ∧
  ∃ b' answer,
    callback_at channelless_world sample_request fresh_bot = (b', Ok answer) ∧
    http_status answer = 200 ∧
    trace b' = [ Log (InfoCallbackParams sample_request);
                 WriteTokens {| access_token := Some "T";
                                refresh_token := Some "R";
                                expires_at := Some 2000000000 |};
                 Log InfoSavedTokens;
                 Log (InfoCallbackTokens sample_request) ] ∧
    filter (fun e => is_admin_message e = true) (trace b') = [] ∧
    reserve_requests (trace b') = [].
Proof.
  split; [done|]. split; [done|].
  eexists _, _. split; [by vm_compute|]. by vm_compute.
Qed.

Lemma callback_validates_then_stores_witness :
  q_status sample_request = Some "ok" ∧
  Py.truthy (q_access_token sample_request) = true ∧
  callback_expiry channelless_world sample_request = Some 2000000000 ∧
  callback_at channelless_world sample_request fresh_bot
  = (callback_stored channelless_world sample_request 2000000000 fresh_bot,
     Ok (callback_success sample_request)).
Proof.
  split; [reflexivity|]. split; [reflexivity|]. split; [reflexivity|].
  exact (proj2 (proj2 (proj2
    (proj2 (callback_validates_then_stores Py.str sample_strftime (fun s => s) "app"
              the_redirect channelless_world sample_request fresh_bot)
       2000000000 eq_refl eq_refl eq_refl)))).
Defined.

Lemma reserve_state_written_on_change_only_witness :
  cleanup_expired_reserves quiet_world 0 fresh_bot = (fresh_bot, Ok tt) ∧
  last_active_reserves fresh_bot ⊆ last_active_reserves fresh_bot ∧
  reserve_writes (trace fresh_bot) =
    (reserve_writes (trace fresh_bot) ++
     if decide (last_active_reserves fresh_bot = last_active_reserves fresh_bot)
     then [] else [last_active_reserves fresh_bot])%list.
Proof.
  assert (cleanup_expired_reserves quiet_world 0 fresh_bot
          = (fresh_bot, Ok tt)) as H by (vm_compute; reflexivity).
  split; [exact H|].
  exact (proj1 (proj2 (reserve_state_written_on_change_only Py.str sample_strftime
                         (fun s => s) "app" the_redirect))
           quiet_world 0 fresh_bot fresh_bot (Ok tt) H).
Defined.

Lemma cycle_without_token_leaves_reserves_witness :
  (warning_at quiet_world;; get_valid_token quiet_world) fresh_bot
  = (fresh_bot, Ok None) ∧
  cycle_at quiet_world fresh_bot
  = (after [Log (InfoPleaseVisit
                   (full_auth_url (fun s => s) "app" the_redirect));
            SendAdmin (NeedsReauthorization
                         (full_auth_url (fun s => s) "app" the_redirect));
            Log InfoSentAdminMessage] fresh_bot, Ok tt).
Proof.
  assert ((warning_at quiet_world;; get_valid_token quiet_world) fresh_bot
          = (fresh_bot, Ok None)) as H by (vm_compute; reflexivity).
  split; [exact H|].
  exact (proj1 (cycle_without_token_leaves_reserves Py.str sample_strftime
                  (fun s => s) "app" the_redirect quiet_world fresh_bot
                  fresh_bot H)).
Defined.

(** C8, as stated, fails for a non-2xx answer with a JSON body: the cycle
    ends after the request and logs nothing. *)
Lemma failed_fetch_is_not_logged :
  clanreserves serving_world = Reply 500 None ∧
  cycle_at serving_world authorized_bot
  = (after [GetReserves (Some "T")] authorized_bot, Ok tt) ∧
  filter (fun e => is_log e = true)
         (trace (cycle_at serving_world authorized_bot).1) = [].
Proof.
  split; [done|].
  assert (cycle_at serving_world authorized_bot
          = (after [GetReserves (Some "T")] authorized_bot, Ok tt)) as H
    by (vm_compute; reflexivity).
  split; [exact H|]. by rewrite H.
Qed.

Lemma cycle_contains_failures_witness :
  (warning_at serving_world;; get_valid_token serving_world) authorized_bot
  = (authorized_bot, Ok (Some "T")) ∧
  cleanup_expired_reserves serving_world (clock_cleanup serving_world)
    authorized_bot = (authorized_bot, Ok tt) ∧
  cycle_at serving_world authorized_bot
  = (after [GetReserves (Some "T")] authorized_bot, Ok tt).
Proof.
  assert ((warning_at serving_world;; get_valid_token serving_world)
            authorized_bot = (authorized_bot, Ok (Some "T"))) as H1
    by (vm_compute; reflexivity).
  assert (cleanup_expired_reserves serving_world
            (clock_cleanup serving_world) authorized_bot
          = (authorized_bot, Ok tt)) as H2 by (vm_compute; reflexivity).
  assert (500 ≠ 200 ∨ @None (list (reserve Z)) = None) as H3 by (by right).
  split; [exact H1|]. split; [exact H2|].
  exact (proj2 (proj2 (cycle_contains_failures Py.str sample_strftime (fun s => s)
                         "app" the_redirect))
           serving_world authorized_bot authorized_bot authorized_bot
           (Some "T") H1 eq_refl H2 H3).
Defined.

(* ===================================================================== *)
(** ** Further properties: reserve ids and cleanup *)
(* ===================================================================== *)

Lemma append_nil_l (s : string) : "" +:+ s = s.
Proof. reflexivity. Qed.

Lemma append_cons (a : ascii) (s t : string) :
  String a s +:+ t = String a (s +:+ t).
Proof. reflexivity. Qed.

(** A text is cut in one way only at a separator that is the last one. *)
Lemma append_last_sep_inj (c : ascii) (s1 s2 t1 t2 : string) :
  Py.contains c t1 = false → Py.contains c t2 = false →
  s1 +:+ String c t1 = s2 +:+ String c t2 → s1 = s2 ∧ t1 = t2.
Proof.
  intros H1 H2. revert s2.
  induction s1 as [|a s1 IH]; intros [|a2 s2];
    rewrite ?append_nil_l, ?append_cons; intros Heq.
  - by injection Heq as ->.
  - injection Heq as <- ->. rewrite contains_app in H1. simpl in H1.
    rewrite Ascii.eqb_refl, orb_true_r in H1. done.
  - injection Heq as -> <-. rewrite contains_app in H2. simpl in H2.
    rewrite Ascii.eqb_refl, orb_true_r in H2. done.
  - injection Heq as -> Heq. destruct (IH _ Heq) as [-> ->]. done.
Qed.

Lemma str_inj (a a' : Z) : Py.str a = Py.str a' → a = a'.
Proof.
  intros Heq. pose proof (int_str a) as H. rewrite Heq, int_str in H.
  by injection H.
Qed.

(** X1.  Lines 363-364.  The id tells name and activation time apart: two
    reserves get the same id only when they have the same name and the
    same activation time, whatever the names contain. *)
Theorem reserve_id_injective (n n' : string) (a a' : Z) :
  reserve_id n a = reserve_id n' a' → n = n' ∧ a = a'.
Proof.
  unfold reserve_id. change ("_" +:+ Py.str a) with (String "_" (Py.str a)).
  change ("_" +:+ Py.str a') with (String "_" (Py.str a')).
  intros Heq.
  destruct (append_last_sep_inj _ _ _ _ _ (str_no_underscore a)
              (str_no_underscore a') Heq) as [-> Hs].
  split; [done|]. by apply str_inj.
Qed.

(** X2.  Line 225.  What the parse of an id can raise: [IndexError] exactly
    when the id holds no underscore, and otherwise nothing but
    [ValueError]. *)
Theorem activation_key_errors (i : string) :
  (activation_key i = Raise IndexError ↔ Py.contains "_" i = false) ∧
  (∀ e, activation_key i = Raise e → e = IndexError ∨ e = ValueError).
Proof.
  assert (Py.contains "_" i = true →
          activation_key i = Raise ValueError ∨ ∃ k, activation_key i = Ok k)
    as Hsep.
  { intros Hc. destruct (contains_first_sep _ _ Hc) as (p & q & -> & Hp).
    unfold activation_key. rewrite second_segment by done.
    destruct (Py.int _) as [k|]; [right; by exists k|by left]. }
  assert (Py.contains "_" i = false → activation_key i = Raise IndexError)
    as Hnone.
  { intros Hc. unfold activation_key. by rewrite split_no_sep. }
  split; [split|].
  - intros Hraise. destruct (Py.contains "_" i) eqn:Hc; [|done].
    destruct (Hsep eq_refl) as [H|[k H]]; rewrite H in Hraise; done.
  - exact Hnone.
  - intros e He. destruct (Py.contains "_" i) eqn:Hc.
    + destruct (Hsep eq_refl) as [H|[k H]]; rewrite H in He;
        [right; by injection He|done].
    + rewrite (Hnone eq_refl) in He. left. by injection He.
Qed.

Lemma expired_among_all_parse (ids : list string) (now : Z)
    (expired : gset string) :
  expired_among ids now = Ok expired →
  ∀ i, i ∈ ids → ∃ k, activation_key i = Ok k.
Proof.
  revert expired. induction ids as [|i0 ids IH]; intros expired Hok i Hi.
  - by apply elem_of_nil in Hi.
  - simpl in Hok. destruct (activation_key i0) as [k0|] eqn:Hk0; [|done].
    destruct (expired_among ids now) as [E|] eqn:HE; [|done].
    apply elem_of_cons in Hi as [->|Hi]; [by exists k0|].
    by apply (IH E).
Qed.

Lemma expired_among_raise_inv (ids : list string) (now : Z) (e : exn) :
  expired_among ids now = Raise e →
  ∃ i, i ∈ ids ∧ activation_key i = Raise e.
Proof.
  induction ids as [|i0 ids IH]; simpl; [done|].
  destruct (activation_key i0) as [k0|e0] eqn:Hk0.
  - destruct (expired_among ids now) as [E|e1].
    + by destruct (k0 <? now - 7200).
    + intros [= <-]. destruct IH as (i & Hi & Hraise); [done|].
      exists i. split; [by right|done].
  - intros [= <-]. exists i0. split; [by left|done].
Qed.

(** X3.  Lines 223-226.  The set comprehension does not depend on the order
    in which the set is iterated: on any two orders it raises on both or
    yields the same expired set. *)
Theorem expired_among_order (ids ids' : list string) (now : Z) :
  ids ≡ₚ ids' →
  (∀ expired, expired_among ids now = Ok expired →
              expired_among ids' now = Ok expired) ∧
  (∀ e, expired_among ids now = Raise e →
        ∃ e', expired_among ids' now = Raise e').
Proof.
  intros Hperm. split.
  - intros expired Hok.
    pose proof (expired_among_all_parse _ _ _ Hok) as Hall.
    destruct (expired_among_ok ids now Hall) as (E & HE & Hchar).
    rewrite Hok in HE. injection HE as <-.
    destruct (expired_among_ok ids' now) as (E' & -> & Hchar').
    { intros i Hi. apply Hall. by rewrite Hperm. }
    f_equal. apply set_eq. intros i. rewrite Hchar, Hchar'.
    by rewrite Hperm.
  - intros e Hraise.
    destruct (expired_among_raise_inv _ _ _ Hraise) as (i & Hi & Hkey).
    apply (expired_among_raise ids' now i e); [|done]. by rewrite <- Hperm.
Qed.

Section CleanupMore.

Context {number : Type}.
Implicit Types (w : world number) (b : DiscordBot).

(** What a cleanup that returned has done to the set. *)
Lemma cleanup_ok_inv w (now : Z) b b' :
  cleanup_expired_reserves w now b = (b', Ok tt) →
  (∀ i, i ∈ last_active_reserves b → ∃ k, activation_key i = Ok k) ∧
  (∀ i, i ∈ last_active_reserves b' ↔
        i ∈ last_active_reserves b ∧
        ∃ k, activation_key i = Ok k ∧ ¬ k < now - 7200).
Proof.
  intros Hrun.
  assert (∀ i, i ∈ last_active_reserves b → ∃ k, activation_key i = Ok k)
    as Hall.
  { rewrite cleanup_run in Hrun.
    destruct (expired_among _ _) as [expired|e] eqn:Hexp; [|done].
    intros i Hi. apply (expired_among_all_parse _ _ _ Hexp).
    by apply elem_of_elements. }
  split; [done|].
  destruct (cleanup_parsed w now b Hall) as (b'' & Hrun' & Hchar).
  rewrite Hrun in Hrun'. by injection Hrun' as <-.
Qed.

(** X4.  Lines 221-230.  Cleanup is idempotent: right after a cleanup that
    returned, a second one at the same time finds nothing to remove and
    writes nothing. *)
Theorem cleanup_idempotent w w' (now : Z) b b' :
  cleanup_expired_reserves w now b = (b', Ok tt) →
  cleanup_expired_reserves w' now b' = (b', Ok tt).
Proof.
  intros Hrun. destruct (cleanup_ok_inv w now b b' Hrun) as [_ Hchar].
  rewrite cleanup_run.
  destruct (expired_among_ok (elements (last_active_reserves b')) now)
    as (E & -> & HE).
  { intros i Hi%elem_of_elements. apply Hchar in Hi as [_ (k & Hk & _)].
    by exists k. }
  rewrite decide_True; [done|].
  apply set_eq. intros i. rewrite HE, elem_of_elements.
  split; [|by intros ?%elem_of_empty].
  intros [Hin (k & Hk & Hlt)].
  apply Hchar in Hin as [_ (k' & Hk' & Hge)].
  rewrite Hk in Hk'. injection Hk' as <-. done.
Qed.

End CleanupMore.

(* ===================================================================== *)
(** ** Further properties: one cycle *)
(* ===================================================================== *)

Lemma reserve_requests_app (t u : list event) :
  reserve_requests (t ++ u)
  = (reserve_requests t ++ reserve_requests u)%list.
Proof. apply omap_app. Qed.

Lemma admin_messages_app (t u : list event) :
  admin_messages (t ++ u) = (admin_messages t ++ admin_messages u)%list.
Proof. apply omap_app. Qed.

Lemma channel_messages_app (t u : list event) :
  channel_messages (t ++ u)
  = (channel_messages t ++ channel_messages u)%list.
Proof. apply omap_app. Qed.

Lemma channel_messages_auth (t evs : list event) :
  Forall (fun e => auth_event e = true) evs →
  channel_messages (t ++ evs) = channel_messages t.
Proof.
  intros Hev. rewrite channel_messages_app.
  rewrite <- (app_nil_r (channel_messages t)) at 2. f_equal.
  induction Hev as [|e evs He _ IH]; [done|].
  unfold channel_messages in *. simpl. by destruct e.
Qed.

Section CycleMore.

Context {number : Type}.
Variable str_number : number -> string.
Variable strftime_local : Z -> result string.
Variable quote : string -> string.
Variables WG_APPLICATION_ID redirect_uri : string.
Implicit Types (w : world number) (b : DiscordBot).

Local Abbreviation url := (full_auth_url quote WG_APPLICATION_ID redirect_uri).
Local Abbreviation expiry_warning :=
  (expiry_warning quote WG_APPLICATION_ID redirect_uri).
Local Abbreviation diff := (diff str_number strftime_local).
Local Abbreviation spec_newly_activated :=
  (spec_newly_activated str_number strftime_local).
Local Abbreviation fetch_and_diff := (fetch_and_diff str_number strftime_local).
Local Abbreviation poll_body :=
  (poll_body str_number strftime_local quote WG_APPLICATION_ID redirect_uri).
Local Abbreviation fetch_and_post_reserves :=
  (fetch_and_post_reserves str_number strftime_local quote WG_APPLICATION_ID
     redirect_uri).
Local Abbreviation acquire w := (expiry_warning w;; get_valid_token w).

Lemma announce_run w (newly_activated : list string) b :
  announce w newly_activated b =
  match newly_activated, channel w with
  | [], _ | _, None => (b, Ok tt)
  | _ :: _, Some true =>
      (after [ChannelSend (announcement newly_activated)] b, Ok tt)
  | _ :: _, Some false =>
      (after [ChannelSend (announcement newly_activated)] b,
       Raise DiscordError)
  end.
Proof.
  unfold announce, announcement, after.
  destruct newly_activated as [|x xs]; [by destruct (channel w)|].
  destruct (channel w) as [[]|]; destruct b as [a l tf rf t]; by run.
Qed.

(** A cycle that has a token, gets through cleanup and is answered 200
    with data that the diff accepts. *)
Lemma cycle_diff_run w b b1 b2 (token : option string)
    (reserves : list (reserve number)) (found : gset string * list string) :
  acquire w b = (b1, Ok token) →
  Py.truthy token = true →
  cleanup_expired_reserves w (clock_cleanup w) b1 = (b2, Ok tt) →
  clanreserves w = Reply 200 (Some reserves) →
  diff (last_active_reserves b2) reserves = Ok found →
  fetch_and_post_reserves w b =
  let b4 := tracked w found.1 (after [GetReserves token] b2) in
  match found.2, channel w with
  | [], _ | _, None => (b4, Ok tt)
  | _ :: _, Some true =>
      (after [ChannelSend (announcement found.2)] b4, Ok tt)
  | _ :: _, Some false =>
      (after [ChannelSend (announcement found.2);
              Log (ErrorCycle DiscordError)] b4, Ok tt)
  end.
Proof.
  intros Hacq Htok Hclean Hreply Hdiff.
  rewrite cycle_run, poll_body_run, Hacq, Htok. simpl negb. cbv iota.
  rewrite fetch_and_diff_run, Hclean, Hreply. cbv zeta. simpl Z.eqb.
  cbv iota. change (last_active_reserves b2)
    with (last_active_reserves (after [GetReserves token] b2)) in Hdiff.
  simpl in Hdiff. rewrite Hdiff.
  rewrite update_tracking_run. unfold tracked.
  destruct (decide _); rewrite announce_run;
    destruct found.2, (channel w) as [[]|]; try done;
    unfold after; simpl; by rewrite <- app_assoc.
Qed.

Lemma tracked_last w (current_active : gset string) b :
  last_active_reserves (tracked w current_active b) = current_active.
Proof. unfold tracked. by destruct (decide _). Qed.

(** X5.  Lines 352-384.  After a cycle that got its snapshot and could
    format every new active entry, the tracked set is exactly the set of
    ids active in that snapshot, whether or not the announcement went out:
    the id of a reserve that is no longer active is forgotten at once. *)
Theorem tracked_set_is_active_set w b b1 b2 (token : option string)
    (reserves : list (reserve number)) :
  acquire w b = (b1, Ok token) →
  Py.truthy token = true →
  cleanup_expired_reserves w (clock_cleanup w) b1 = (b2, Ok tt) →
  clanreserves w = Reply 200 (Some reserves) →
  Forall well_formed reserves →
  formattable str_number strftime_local (last_active_reserves b2) reserves →
  last_active_reserves (fetch_and_post_reserves w b).1
  = spec_current_active reserves.
Proof.
  intros Hacq Htok Hclean Hreply Hwf Hfmt.
  rewrite (cycle_diff_run w b b1 b2 token reserves _ Hacq Htok Hclean Hreply
             (diff_refines _ _ _ _ Hwf Hfmt)).
  cbv zeta. cbn [fst snd].
  destruct (spec_newly_activated _ _), (channel w) as [[]|]; simpl;
    apply tracked_last.
Qed.

(** X6.  Lines 381-392.  The tracking set is replaced before the message
    is sent.  When every new active entry can be formatted, there is
    something new and the channel is missing or refuses the message, the
    cycle still ends with the new reserves recorded as announced, so the
    next diff of the same snapshot reports nothing: the announcement is
    lost, not retried. *)
Theorem failed_announcement_is_not_repeated w b b1 b2
    (token : option string) (reserves : list (reserve number)) :
  acquire w b = (b1, Ok token) →
  Py.truthy token = true →
  cleanup_expired_reserves w (clock_cleanup w) b1 = (b2, Ok tt) →
  clanreserves w = Reply 200 (Some reserves) →
  Forall well_formed reserves →
  formattable str_number strftime_local (last_active_reserves b2) reserves →
  spec_newly_activated (last_active_reserves b2) reserves ≠ [] →
  channel w ≠ Some true →
  let news := spec_newly_activated (last_active_reserves b2) reserves in
  let b4 := tracked w (spec_current_active reserves)
              (after [GetReserves token] b2) in
  fetch_and_post_reserves w b
  = (match channel w with
     | None => b4
     | Some _ => after [ChannelSend (announcement news);
                        Log (ErrorCycle DiscordError)] b4
     end, Ok tt) ∧
  diff (last_active_reserves (fetch_and_post_reserves w b).1) reserves
  = Ok (spec_current_active reserves, []).
Proof.
  intros Hacq Htok Hclean Hreply Hwf Hfmt Hnew Hchan news b4.
  assert (fetch_and_post_reserves w b
          = (match channel w with
             | None => b4
             | Some _ => after [ChannelSend (announcement news);
                                Log (ErrorCycle DiscordError)] b4
             end, Ok tt)) as Hrun.
  { rewrite (cycle_diff_run w b b1 b2 token reserves _ Hacq Htok Hclean
               Hreply (diff_refines _ _ _ _ Hwf Hfmt)).
    cbv zeta. cbn [fst snd]. fold news. fold b4.
    destruct news as [|x xs] eqn:Hn; [done|].
    by destruct (channel w) as [[]|]. }
  split; [exact Hrun|].
  rewrite Hrun. cbn [fst].
  assert (last_active_reserves
            (match channel w with
             | None => b4
             | Some _ => after [ChannelSend (announcement news);
                                Log (ErrorCycle DiscordError)] b4
             end) = spec_current_active reserves) as ->.
  { destruct (channel w); simpl; apply tracked_last. }
  rewrite diff_refines; [|done|by apply formattable_known].
  f_equal. f_equal.
  unfold Bot.spec_newly_activated. rewrite filter_none; [done|].
  intros r Hr [Hact Hnot]. apply Hnot.
  by apply entry_id_in_current_active.
Qed.

(** X7.  Lines 221-230 and 352-379.  Cleanup runs before the diff and
    purges by activation time, not by status.  So a reserve that is still
    active more than 7200 seconds after its activation is purged by
    cleanup and then, in a snapshot whose new active entries can all be
    formatted, found new by the diff of the same cycle, even if it was
    announced before: it is announced again in every cycle. *)
Theorem long_running_reserve_is_reannounced w (now : Z) b b2
    (reserves : list (reserve number)) (r : reserve number)
    (stock : stock_info number) (rest : list (stock_info number)) :
  cleanup_expired_reserves w now b = (b2, Ok tt) →
  Forall well_formed reserves →
  formattable str_number strftime_local (last_active_reserves b2) reserves →
  r ∈ reserves →
  in_stock r = stock :: rest →
  status stock = "active" →
  Py.contains "_" (name r) = false →
  activated_at stock < now - 7200 →
  (reserve_id (name r) (activated_at stock) ∉ last_active_reserves b2) ∧
  ∃ current_active newly_activated info,
    diff (last_active_reserves b2) reserves
    = Ok (current_active, newly_activated) ∧
    reserve_info str_number strftime_local (name r) stock = Ok info ∧
    info ∈ newly_activated.
Proof.
  intros Hclean Hwf Hfmt Hr Hstock Hact Hname Hold.
  destruct (cleanup_ok_inv w now b b2 Hclean) as [_ Hchar].
  assert (reserve_id (name r) (activated_at stock)
            ∉ last_active_reserves b2) as Hnot.
  { intros [_ (k & Hk & Hge)]%Hchar.
    rewrite activation_key_plain in Hk by done. injection Hk as <-. done. }
  split; [done|].
  assert (entry_active r = true) as Hea
    by (unfold entry_active; by rewrite Hstock, Hact).
  assert (entry_id r = reserve_id (name r) (activated_at stock)) as Hid
    by (unfold entry_id; by rewrite Hstock).
  assert (formats str_number strftime_local r = true) as Hok.
  { unfold formattable in Hfmt. rewrite Forall_forall in Hfmt.
    apply Hfmt; [done..|by rewrite Hid]. }
  unfold formats, entry_text in Hok. rewrite Hstock in Hok.
  destruct (reserve_info str_number strftime_local (name r) stock)
    as [info|e] eqn:Hinfo; [|done].
  eexists _, _, info. split; [by apply diff_refines|]. split; [done|].
  unfold Bot.spec_newly_activated. apply list_elem_of_fmap.
  exists r. split.
  - unfold entry_info, entry_text. by rewrite Hstock, Hinfo.
  - apply list_elem_of_filter. split; [|done]. split; [done|].
    by rewrite Hid.
Qed.

(** X8.  Lines 209-219 and 381-384.  A write of the state file that
    fails is not tried again: memory holds the new set; the file keeps
    its old content only when it could not be opened, and is left
    truncated or incomplete, never with the new set, when the failure
    came after opening; one error record is logged; and as long as the
    active set stays the same no later cycle writes, even with the disk
    working again. *)
Theorem failed_write_is_not_retried w w' (current_active : gset string) b :
  disk_ok w = false →
  current_active ≠ last_active_reserves b →
  ∃ b', update_tracking w current_active b = (b', Ok tt) ∧
    last_active_reserves b' = current_active ∧
    reserves_state_file b'
    = match disk_failure w with
      | AtOpen => reserves_state_file b
      | AtDump | AtClose => Broken
      end ∧
    trace b' = (trace b ++ [WriteReserves current_active;
                            Log ErrorSavingReserves])%list ∧
    update_tracking w' current_active b' = (b', Ok tt).
Proof.
  intros Hdisk Hne. rewrite update_tracking_run, decide_False by done.
  eexists. split; [done|]. split; [done|].
  split; [simpl; unfold written; by rewrite Hdisk|].
  split; [simpl; unfold reserves_log; by rewrite Hdisk|].
  rewrite update_tracking_run. simpl. by rewrite decide_True.
Qed.

Local Abbreviation cycles :=
  (run_cycles str_number strftime_local quote WG_APPLICATION_ID redirect_uri).

(** What is left of the bot by everything after the token. *)
Ltac fetch_and_diff_cases w :=
  rewrite fetch_and_diff_run, cleanup_run;
  repeat first
    [ progress cbv zeta
    | rewrite update_tracking_run
    | rewrite announce_run
    | match goal with
      | |- context [match expired_among ?l ?n with _ => _ end] =>
          destruct (expired_among l n)
      | |- context [match clanreserves w with _ => _ end] =>
          destruct (clanreserves w) as [| |? []]
      | |- context [if ?c =? 200 then _ else _] => destruct (c =? 200)
      | |- context [match diff ?l ?r with _ => _ end] => destruct (diff l r)
      | |- context [match channel w with _ => _ end] =>
          destruct (channel w) as [[]|]
      | |- context [match ?found.2 with _ => _ end] => destruct found.2
      | |- context [decide ?P] => destruct (decide P)
      end ].

Lemma fetch_and_diff_keeps_credential w (token : option string) b :
  auth (fetch_and_diff w token b).1 = auth b ∧
  token_file (fetch_and_diff w token b).1 = token_file b.
Proof. fetch_and_diff_cases w; done. Qed.

Lemma fetch_and_diff_keeps_sync w (token : option string) b :
  disk_ok w = true → reserves_in_sync b →
  reserves_in_sync (fetch_and_diff w token b).1.
Proof.
  intros Hdisk Hsync. unfold reserves_in_sync in *.
  fetch_and_diff_cases w; simpl; unfold written; rewrite ?Hdisk; done.
Qed.

Lemma cycle_fst_poll w b :
  auth (fetch_and_post_reserves w b).1 = auth (poll_body w b).1 ∧
  token_file (fetch_and_post_reserves w b).1 = token_file (poll_body w b).1 ∧
  last_active_reserves (fetch_and_post_reserves w b).1
  = last_active_reserves (poll_body w b).1 ∧
  reserves_state_file (fetch_and_post_reserves w b).1
  = reserves_state_file (poll_body w b).1.
Proof.
  rewrite cycle_run. by destruct (poll_body w b) as [b' [[]|e]].
Qed.

(** X9.  Lines 209-230 and 381-384.  With a working disk a cycle keeps
    memory and state file in step: if a restart before the cycle would
    have loaded the announced set the bot holds, so would a restart after
    it. *)
Theorem cycle_keeps_reserves_in_sync w b :
  disk_ok w = true →
  reserves_in_sync b →
  reserves_in_sync (fetch_and_post_reserves w b).1.
Proof.
  intros Hdisk Hsync.
  destruct (cycle_fst_poll w b) as (_ & _ & Hl & Hf).
  unfold reserves_in_sync. rewrite Hl, Hf. clear Hl Hf.
  rewrite poll_body_run.
  destruct (auth_only_at _ b (acquire_auth_only quote WG_APPLICATION_ID
                                redirect_uri w))
    as (b1 & r & evs & -> & Hl1 & Hf1 & _).
  assert (reserves_in_sync b1) as Hsync1
    by (unfold reserves_in_sync in *; by rewrite Hl1, Hf1).
  destruct r as [token|e]; [|done].
  destruct (negb (Py.truthy token)).
  - by rewrite reauthorization_run.
  - by apply fetch_and_diff_keeps_sync.
Qed.

Lemma expiry_warning_keeps_credential w b :
  auth (expiry_warning w b).1 = auth b ∧
  token_file (expiry_warning w b).1 = token_file b.
Proof.
  unfold Bot.expiry_warning, Bot.start_oauth_flow, send_admin_message, log.
  destruct b as [a l tf rf t]. run. simpl.
  destruct (expires_at a) as [e|]; [|done].
  destruct (e =? 0); [done|]. destruct (_ <? 86400); [|done].
  by destruct (admin_ok w).
Qed.

Lemma get_valid_token_keeps_sync w b :
  disk_ok w = true → prolongate_well_formed w →
  tokens_in_sync b → tokens_in_sync (get_valid_token w b).1.
Proof.
  intros Hdisk Hwf Hsync. rewrite get_valid_token_run.
  destruct (token_fresh _ _); [done|].
  destruct (Py.truthy _); [|done].
  unfold prolongate_well_formed in Hwf.
  destruct (prolongate w) as [|code|code body] eqn:Hreply.
  - destruct (refresh_run_fails w b) as [e ->];
      [unfold prolongate_fails; by rewrite Hreply|done].
  - destruct (refresh_run_fails w b) as [e ->];
      [unfold prolongate_fails; by rewrite Hreply|done].
  - destruct (decide (r_status body = Some "ok")) as [Hok|Hnok].
    + destruct (Hwf Hok) as (tok & rtok & life & ->).
      rewrite (refresh_run_ok w b code tok rtok life Hreply).
      unfold tokens_in_sync. simpl. unfold written. by rewrite Hdisk.
    + destruct (refresh_run_fails w b) as [e ->];
        [unfold prolongate_fails; by rewrite Hreply|done].
Qed.

(** X10.  Lines 123-166.  With a working disk and a prolongate endpoint
    that keeps its contract, a cycle keeps the credential in memory and
    the token file in step: a restart after the cycle loads the
    credential the bot holds. *)
Theorem cycle_keeps_tokens_in_sync w b :
  disk_ok w = true →
  prolongate_well_formed w →
  tokens_in_sync b →
  tokens_in_sync (fetch_and_post_reserves w b).1.
Proof.
  intros Hdisk Hwf Hsync.
  destruct (cycle_fst_poll w b) as (Ha & Hf & _).
  unfold tokens_in_sync. rewrite Ha, Hf. clear Ha Hf.
  assert (tokens_in_sync (acquire w b).1) as Hsync1.
  { unfold mbind, M_bind.
    destruct (expiry_warning_keeps_credential w b) as [Ha0 Hf0].
    destruct (expiry_warning w b) as [b0 [[]|e]]; simpl in *.
    - pose proof (get_valid_token_keeps_sync w b0 Hdisk Hwf) as Hg.
      destruct (get_valid_token w b0) as [b1 [r|e]]; simpl in *;
        apply Hg; unfold tokens_in_sync; by rewrite Ha0, Hf0.
    - unfold tokens_in_sync. by rewrite Ha0, Hf0. }
  rewrite poll_body_run.
  destruct (acquire w b) as [b1 [token|e]]; [|done].
  destruct (negb (Py.truthy token)).
  - by rewrite reauthorization_run.
  - destruct (fetch_and_diff_keeps_credential w token b1) as [-> ->]. done.
Qed.

Lemma get_valid_token_no_admin w b :
  admin_messages (trace (get_valid_token w b).1) = admin_messages (trace b).
Proof.
  unfold get_valid_token, refresh_access_token, save_tokens, log.
  destruct b as [a l tf rf t]. run.
  repeat (case_match; simpl in *; simplify_eq; try done);
    rewrite ?admin_messages_app; simpl; by rewrite ?app_nil_r.
Qed.

Lemma expiry_warning_admin w b (e : Z) :
  expires_at (auth b) = Some e → e ≠ 0 → e - clock_expiry w < 86400 →
  admin_messages (trace (expiry_warning w b).1)
  = (admin_messages (trace b) ++
     [ExpiryWarning ((e - clock_expiry w) ÷ 3600) url])%list ∧
  ∃ b0, expiry_warning w b = (b0, Ok tt).
Proof.
  intros He Hne Hlt.
  unfold Bot.expiry_warning, Bot.start_oauth_flow, send_admin_message, log.
  destruct b as [a l tf rf t]. simpl in He. run. simpl. rewrite He.
  rewrite (proj2 (Z.eqb_neq e 0) Hne), (proj2 (Z.ltb_lt _ _) Hlt).
  destruct (admin_ok w); simpl; (split; [|by eauto]);
    rewrite !admin_messages_app; simpl; by rewrite !app_nil_r.
Qed.

(** X11.  Lines 328-337.  The early warning does not end the cycle.  When
    the credential is within a day of its expiry (or past it) and the
    cycle then gets no token, the admin receives two messages in that one
    cycle: the expiry warning with the hours left and the request to
    reauthorize, both with the authorization URL. *)
Theorem expired_credential_notifies_twice w b b1 (token : option string)
    (e : Z) :
  expires_at (auth b) = Some e →
  e ≠ 0 →
  e - clock_expiry w < 86400 →
  acquire w b = (b1, Ok token) →
  Py.truthy token = false →
  admin_messages (trace (fetch_and_post_reserves w b).1)
  = (admin_messages (trace b) ++
     [ExpiryWarning ((e - clock_expiry w) ÷ 3600) url;
      NeedsReauthorization url])%list.
Proof.
  intros He Hne Hlt Hacq Htok.
  rewrite cycle_run, poll_body_run, Hacq, Htok. simpl negb. cbv iota.
  rewrite reauthorization_run. cbn [fst]. unfold after. simpl.
  rewrite admin_messages_app. simpl.
  destruct (expiry_warning_admin w b e He Hne Hlt) as (Hw & b0 & Hrun).
  revert Hacq. unfold mbind, M_bind. rewrite Hrun. rewrite Hrun in Hw.
  cbn [fst] in Hw. intros Hacq.
  pose proof (get_valid_token_no_admin w b0) as Hg.
  rewrite Hacq in Hg. cbn [fst] in Hg.
  by rewrite Hg, Hw, <- app_assoc.
Qed.

Lemma cycle_requests_poll w b :
  reserve_requests (trace (fetch_and_post_reserves w b).1)
  = reserve_requests (trace (poll_body w b).1).
Proof.
  rewrite cycle_run. destruct (poll_body w b) as [b' [[]|e]]; [done|].
  simpl. rewrite reserve_requests_app. simpl. by rewrite app_nil_r.
Qed.

Lemma fetch_and_diff_requests w (token : option string) b :
  reserve_requests (trace (fetch_and_diff w token b).1)
  = (reserve_requests (trace b) ++
     match cleanup_expired_reserves w (clock_cleanup w) b with
     | (_, Ok _) => [token]
     | (_, Raise _) => []
     end)%list.
Proof.
  fetch_and_diff_cases w; simpl;
    unfold reserves_log; destruct (disk_ok w); simpl;
    rewrite ?reserve_requests_app; simpl;
    rewrite ?reserve_requests_app; simpl;
    rewrite <- ?app_assoc; simpl; by rewrite ?app_nil_r.
Qed.

Lemma cycle_requests w b :
  ∃ b1 token,
    acquire w b = (b1, Ok token) ∧
    reserve_requests (trace (fetch_and_post_reserves w b).1)
    = (reserve_requests (trace b) ++
       if Py.truthy token then
         match cleanup_expired_reserves w (clock_cleanup w) b1 with
         | (_, Ok _) => [token]
         | (_, Raise _) => []
         end
       else [])%list.
Proof.
  destruct (auth_only_at _ b (acquire_auth_only quote WG_APPLICATION_ID
                                redirect_uri w))
    as (b1 & r & evs & Hacq & _ & _ & Ht1 & Hev & _).
  destruct (acquire_returns quote WG_APPLICATION_ID redirect_uri w b)
    as (b1' & token & Hacq').
  rewrite Hacq in Hacq'. injection Hacq' as <- ->.
  exists b1, token. split; [done|].
  assert (reserve_requests (trace b1) = reserve_requests (trace b)) as Hr1
    by (rewrite Ht1; by apply reserve_requests_auth).
  rewrite cycle_requests_poll, poll_body_run, Hacq.
  destruct (Py.truthy token); simpl negb; cbv iota.
  - by rewrite fetch_and_diff_requests, Hr1.
  - rewrite reauthorization_run. simpl.
    rewrite reserve_requests_app, Hr1. simpl. done.
Qed.

(** X12.  Lines 334-350.  A cycle asks the clanreserves endpoint at most
    once, with the token it was given: exactly once when it has a token
    and cleanup returns, and not at all otherwise. *)
Theorem cycle_requests_at_most_once w b :
  ∃ b1 token,
    acquire w b = (b1, Ok token) ∧
    reserve_requests (trace (fetch_and_post_reserves w b).1)
    = (reserve_requests (trace b) ++
       if Py.truthy token then
         match cleanup_expired_reserves w (clock_cleanup w) b1 with
         | (_, Ok _) => [token]
         | (_, Raise _) => []
         end
       else [])%list.
Proof. apply cycle_requests. Qed.

Lemma poisoned_cycle w b (i : string) (e : exn) :
  i ∈ last_active_reserves b → activation_key i = Raise e →
  last_active_reserves (fetch_and_post_reserves w b).1
  = last_active_reserves b ∧
  reserve_requests (trace (fetch_and_post_reserves w b).1)
  = reserve_requests (trace b).
Proof.
  intros Hin Hkey.
  destruct (auth_only_at _ b (acquire_auth_only quote WG_APPLICATION_ID
                                redirect_uri w))
    as (b1 & r & evs & Hacq & Hl1 & _ & Ht1 & Hev & _).
  assert (reserve_requests (trace b1) = reserve_requests (trace b)) as Hr1
    by (rewrite Ht1; by apply reserve_requests_auth).
  destruct (cycle_fst_poll w b) as (_ & _ & -> & _).
  rewrite cycle_requests_poll, poll_body_run, Hacq.
  destruct r as [token|e0]; [|done].
  destruct (negb (Py.truthy token)).
  - rewrite reauthorization_run. simpl.
    rewrite reserve_requests_app, Hr1. simpl. by rewrite app_nil_r.
  - destruct (cleanup_raises w (clock_cleanup w) b1 i e) as [e' Hraise];
      [by rewrite Hl1|done|].
    rewrite fetch_and_diff_requests, fetch_and_diff_run, Hraise.
    simpl. by rewrite app_nil_r.
Qed.

Lemma poisoned_cycles (worlds : list (world number)) b (i : string)
    (e : exn) :
  i ∈ last_active_reserves b → activation_key i = Raise e →
  last_active_reserves (cycles worlds b) = last_active_reserves b ∧
  reserve_requests (trace (cycles worlds b)) = reserve_requests (trace b).
Proof.
  revert b. induction worlds as [|w ws IH]; intros b Hin Hkey; [done|].
  unfold run_cycles. simpl. fold (cycles ws (fetch_and_post_reserves w b).1).
  destruct (poisoned_cycle w b i e Hin Hkey) as [Hl Hr].
  destruct (IH (fetch_and_post_reserves w b).1) as [Hl' Hr'];
    [by rewrite Hl|done|].
  by rewrite Hl', Hr', Hl, Hr.
Qed.

(** X13.  Lines 221-230 and 339-340.  An id that cleanup cannot parse is
    never removed, and while it is in the set every cycle with a token
    stops at cleanup: however many cycles follow, the set stays as it is
    and the clanreserves endpoint is never asked again. *)
Theorem unparsable_id_stops_polling (worlds : list (world number)) b
    (i : string) (e : exn) :
  i ∈ last_active_reserves b →
  activation_key i = Raise e →
  last_active_reserves (cycles worlds b) = last_active_reserves b ∧
  reserve_requests (trace (cycles worlds b)) = reserve_requests (trace b).
Proof. apply poisoned_cycles. Qed.

(** X14.  Lines 352-384, then 221-230.  One active reserve whose name has
    an underscore followed by something that is no integer is enough: the
    cycle that sees it, in a snapshot whose new active entries can all be
    formatted, records its id, and from then on no cycle reaches the
    clanreserves endpoint. *)
Theorem underscored_name_stops_polling w b b1 b2 (token : option string)
    (reserves : list (reserve number)) (r : reserve number)
    (stock : stock_info number) (rest : list (stock_info number))
    (p q : string) (worlds : list (world number)) :
  acquire w b = (b1, Ok token) →
  Py.truthy token = true →
  cleanup_expired_reserves w (clock_cleanup w) b1 = (b2, Ok tt) →
  clanreserves w = Reply 200 (Some reserves) →
  Forall well_formed reserves →
  formattable str_number strftime_local (last_active_reserves b2) reserves →
  r ∈ reserves →
  in_stock r = stock :: rest →
  status stock = "active" →
  name r = p +:+ "_" +:+ q →
  Py.contains "_" p = false →
  Py.int (first_segment "_" q) = None →
  let b' := (fetch_and_post_reserves w b).1 in
  reserve_id (name r) (activated_at stock) ∈ last_active_reserves b' ∧
  reserve_requests (trace (cycles worlds b')) = reserve_requests (trace b').
Proof.
  intros Hacq Htok Hclean Hreply Hwf Hfmt Hr Hstock Hact Hname Hp Hint b'.
  assert (reserve_id (name r) (activated_at stock)
            ∈ last_active_reserves b') as Hin.
  { unfold b'.
    rewrite (cycle_diff_run w b b1 b2 token reserves _ Hacq Htok Hclean
               Hreply (diff_refines _ _ _ _ Hwf Hfmt)).
    cbv zeta. cbn [fst snd].
    assert (reserve_id (name r) (activated_at stock)
              ∈ spec_current_active reserves) as Hid.
    { assert (entry_id r = reserve_id (name r) (activated_at stock)) as <-
        by (unfold entry_id; by rewrite Hstock).
      apply entry_id_in_current_active; [done|].
      unfold entry_active. by rewrite Hstock, Hact. }
    destruct (spec_newly_activated _ _), (channel w) as [[]|]; simpl;
      by rewrite tracked_last. }
  split; [done|].
  apply (poisoned_cycles worlds b' _ ValueError Hin).
  rewrite Hname.
  change (p +:+ "_" +:+ q) with (p +:+ String "_" q).
  by rewrite activation_key_underscored, Hint.
Qed.

Lemma cleanup_keeps_channel_messages w (now : Z) b :
  channel_messages (trace (cleanup_expired_reserves w now b).1)
  = channel_messages (trace b).
Proof.
  rewrite cleanup_run.
  destruct (expired_among _ _); [|done].
  destruct (decide _); [done|]. simpl. unfold reserves_log.
  destruct (disk_ok w); rewrite !channel_messages_app; simpl;
    by rewrite !app_nil_r.
Qed.

Lemma tracked_channel_messages w (current_active : gset string) b :
  channel_messages (trace (tracked w current_active b))
  = channel_messages (trace b).
Proof.
  unfold tracked. destruct (decide _); [done|]. simpl. unfold reserves_log.
  destruct (disk_ok w); rewrite channel_messages_app; simpl;
    by rewrite app_nil_r.
Qed.

(** X15.  Lines 386-392.  When every new active entry of the snapshot
    can be formatted, everything new in it goes out in one message: the
    header, then the texts of the new reserves in snapshot order with a
    blank line between them.  It is sent when and only when something is
    new and the channel is found. *)
Theorem new_reserves_go_out_in_one_message w b b1 b2
    (token : option string) (reserves : list (reserve number)) :
  acquire w b = (b1, Ok token) →
  Py.truthy token = true →
  cleanup_expired_reserves w (clock_cleanup w) b1 = (b2, Ok tt) →
  clanreserves w = Reply 200 (Some reserves) →
  Forall well_formed reserves →
  formattable str_number strftime_local (last_active_reserves b2) reserves →
  let news := spec_newly_activated (last_active_reserves b2) reserves in
  channel_messages (trace (fetch_and_post_reserves w b).1)
  = (channel_messages (trace b) ++
     match news, channel w with
     | _ :: _, Some _ =>
         [announcement_header +:+ Py.join (newline +:+ newline) news]
     | _, _ => []
     end)%list.
Proof.
  intros Hacq Htok Hclean Hreply Hwf Hfmt news.
  destruct (auth_only_at _ b (acquire_auth_only quote WG_APPLICATION_ID
                                redirect_uri w))
    as (b1' & r' & evs & Hacq' & _ & _ & Ht1 & Hev & _).
  rewrite Hacq in Hacq'. injection Hacq' as <- <-.
  assert (channel_messages (trace b2) = channel_messages (trace b)) as Hc2.
  { pose proof (cleanup_keeps_channel_messages w (clock_cleanup w) b1) as H.
    rewrite Hclean in H. cbn [fst] in H. rewrite H, Ht1.
    by apply channel_messages_auth. }
  rewrite (cycle_diff_run w b b1 b2 token reserves _ Hacq Htok Hclean Hreply
             (diff_refines _ _ _ _ Hwf Hfmt)).
  cbv zeta. cbn [fst snd]. fold news.
  assert (channel_messages
            (trace (tracked w (spec_current_active reserves)
                      (after [GetReserves token] b2)))
          = channel_messages (trace b)) as Hc4.
  { rewrite tracked_channel_messages. simpl.
    rewrite channel_messages_app, Hc2. simpl. by rewrite app_nil_r. }
  destruct news as [|x xs], (channel w) as [[]|]; simpl;
    rewrite ?channel_messages_app, Hc4; simpl; by rewrite ?app_nil_r.
Qed.

Lemma cycle_keeps_fresh_credential w b :
  token_fresh (auth b) (clock_token w) = true →
  auth (fetch_and_post_reserves w b).1 = auth b ∧
  ∃ b1, acquire w b = (b1, Ok (access_token (auth b))) ∧
        last_active_reserves b1 = last_active_reserves b.
Proof.
  intros Hfresh.
  assert (∃ b0, acquire w b = (b0, Ok (access_token (auth b))) ∧
                last_active_reserves b0 = last_active_reserves b ∧
                auth b0 = auth b) as (b0 & Hacq & Hl0 & Ha0).
  { destruct (auth_only_at _ b (expiry_warning_auth_only quote
                                  WG_APPLICATION_ID redirect_uri w))
      as (b0 & r0 & evs & Hwarn & Hl0 & _).
    destruct (expiry_warning_keeps_credential w b) as [Ha0 _].
    destruct (acquire_returns quote WG_APPLICATION_ID redirect_uri w b)
      as (b1 & token & Hacq).
    revert Hacq. unfold mbind, M_bind. rewrite Hwarn in *. cbn [fst] in Ha0.
    destruct r0 as [[]|e0]; [|done].
    rewrite get_valid_token_run, Ha0, Hfresh. intros [= <- <-].
    by exists b0. }
  split; [|by exists b0].
  destruct (cycle_fst_poll w b) as (-> & _).
  rewrite poll_body_run, Hacq.
  destruct (negb (Py.truthy (access_token (auth b)))).
  - by rewrite reauthorization_run.
  - by destruct (fetch_and_diff_keeps_credential w (access_token (auth b)) b0)
      as [-> _].
Qed.

End CycleMore.

(* ===================================================================== *)
(** ** Further properties: the credential and the callback *)
(* ===================================================================== *)

Section AuthMore.

Context {number : Type}.
Implicit Types (w : world number) (b : DiscordBot).

(** X16.  Lines 160-166.  The three fields are replaced one after the
    other and the file is written last.  An answer with status ok that
    lacks a field raises [KeyError] with the fields before the missing
    one already replaced in memory; the expiry and the token file are
    never touched in that case. *)
Theorem refresh_partial_answer w b (code : Z) (data : option refresh_data) :
  prolongate w = Reply code {| r_status := Some "ok"; r_data := data |} →
  (∀ tok rtok life, data ≠ Some {| d_access_token := Some tok;
                                   d_refresh_token := Some rtok;
                                   d_expires_at := Some life |}) →
  ∃ b' key, refresh_access_token w b = (b', Raise (KeyError key)) ∧
    token_file b' = token_file b ∧
    expires_at (auth b') = expires_at (auth b) ∧
    access_token (auth b')
    = match data with
      | Some {| d_access_token := Some tok |} => Some tok
      | _ => access_token (auth b)
      end ∧
    refresh_token (auth b')
    = match data with
      | Some {| d_access_token := Some _; d_refresh_token := Some rtok |} =>
          Some rtok
      | _ => refresh_token (auth b)
      end.
Proof. apply refresh_run_partial. Qed.

(** X17.  Lines 135-166.  A refreshed token is kept for its lifetime: after
    a successful refresh at time t with lifetime L, any later call before
    t + L - 300 returns the new token from memory, with no request and no
    write. *)
Theorem refreshed_token_is_reused w w' b b' (code : Z) (tok rtok : string)
    (life : Z) :
  prolongate w = Reply code (prolongate_ok tok rtok life) →
  refresh_access_token w b = (b', Ok tt) →
  tok ≠ "" →
  0 ≤ clock_token w' →
  clock_token w' < clock_refresh w + life - 300 →
  get_valid_token w' b' = (b', Ok (Some tok)).
Proof.
  intros Hreply Hrun Htok Hnow Hlt.
  rewrite (refresh_run_ok w b code tok rtok life Hreply) in Hrun.
  injection Hrun as <-.
  rewrite get_valid_token_run.
  rewrite usable_token_fresh; [done|done|].
  exists tok, (clock_refresh w + life). by repeat split.
Qed.

End AuthMore.

Section CallbackMore.

Context {number : Type}.
Variable str_number : number -> string.
Variable strftime_local : Z -> result string.
Variable quote : string -> string.
Variables WG_APPLICATION_ID redirect_uri : string.
Implicit Types (w : world number) (b : DiscordBot) (req : request).

Local Abbreviation fetch_and_post_reserves :=
  (fetch_and_post_reserves str_number strftime_local quote WG_APPLICATION_ID
     redirect_uri).
Local Abbreviation handle_oauth_callback :=
  (handle_oauth_callback str_number strftime_local quote WG_APPLICATION_ID
     redirect_uri).


(** X19.  Lines 305-322.  A valid redirect whose expiry is no integer is
    answered 500 with the two tokens already replaced in memory, the old
    expiry kept and nothing saved, notified or polled.  Memory and token
    file then disagree: the bot goes on with the new token, a restart
    does not. *)
Theorem callback_with_bad_expiry_half_stores w req b :
  q_status req = Some "ok" →
  Py.truthy (q_access_token req) = true →
  callback_expiry w req = None →
  ∃ b' answer,
    handle_oauth_callback w req b = (b', Ok answer) ∧
    http_status answer = 500 ∧
    access_token (auth b') = q_access_token req ∧
    refresh_token (auth b') = q_refresh_token req ∧
    expires_at (auth b') = expires_at (auth b) ∧
    token_file b' = token_file b ∧
    admin_messages (trace b') = admin_messages (trace b) ∧
    reserve_requests (trace b') = reserve_requests (trace b) ∧
    (tokens_in_sync b → access_token (auth b) ≠ q_access_token req →
     ¬ tokens_in_sync b').
Proof.
  intros Hst Htok Hexp.
  rewrite (callback_bad_expiry _ _ _ _ _ w req b Hst Htok Hexp).
  eexists _, _. split; [done|]. repeat split; try done.
  - simpl. rewrite admin_messages_app. simpl. by rewrite app_nil_r.
  - simpl. rewrite reserve_requests_app. simpl. by rewrite app_nil_r.
  - unfold tokens_in_sync. simpl. intros Hsync Hne Hsync'.
    rewrite Hsync in Hsync'. apply Hne.
    by rewrite Hsync' at 1.
Qed.

(** X20.  Lines 305-316 and 334-349.  The cycle that a valid callback
    starts runs on the credential just supplied: when that credential is
    not yet within 300 seconds of its expiry and cleanup gets through,
    the one request to the clanreserves endpoint carries the new access
    token, and the credential is still the supplied one afterwards. *)
Theorem callback_cycle_uses_new_token w req b (expiry : Z) (sent : bool) :
  q_status req = Some "ok" →
  Py.truthy (q_access_token req) = true →
  callback_expiry w req = Some expiry →
  0 ≤ clock_token w →
  clock_token w < expiry - 300 →
  channel w = Some sent →
  (∀ i, i ∈ last_active_reserves b → ∃ k, activation_key i = Ok k) →
  ∃ b' answer,
    handle_oauth_callback w req b = (b', Ok answer) ∧
    http_status answer = 200 ∧
    auth b' = callback_credential req expiry ∧
    reserve_requests (trace b')
    = (reserve_requests (trace b) ++ [q_access_token req])%list.
Proof.
  intros Hst Htok Hexp Hnow Hlt Hchan Hparse.
  rewrite (callback_run_valid _ _ _ _ _ w req expiry b Hst Htok Hexp), Hchan.
  set (s0 := after _ (callback_stored w req expiry b)).
  assert (token_fresh (auth s0) (clock_token w) = true) as Hfresh.
  { apply usable_token_fresh; [done|].
    unfold Py.truthy in Htok.
    destruct (q_access_token req) as [[|c tok]|] eqn:Hq; try done.
    exists (String c tok), expiry. simpl. by rewrite Hq. }
  destruct (cycle_keeps_fresh_credential str_number strftime_local quote
              WG_APPLICATION_ID redirect_uri w s0 Hfresh)
    as (Hauth & b1 & Hacq & Hl1).
  eexists _, _. split; [done|]. split; [done|]. split; [by rewrite Hauth|].
  destruct (cycle_requests str_number strftime_local quote
              WG_APPLICATION_ID redirect_uri w s0)
    as (b1' & token & Hacq' & ->).
  rewrite Hacq in Hacq'. injection Hacq' as <- <-.
  change (access_token (auth s0)) with (q_access_token req). rewrite Htok.
  destruct (cleanup_parsed w (clock_cleanup w) b1) as (b2 & -> & _).
  { intros i Hi. apply Hparse. by rewrite Hl1 in Hi. }
  f_equal. subst s0. simpl. unfold tokens_log.
  destruct (disk_ok w), (disk_failure w); simpl;
    rewrite !reserve_requests_app; simpl; by rewrite ?app_nil_r.
Qed.

End CallbackMore.

(* ===================================================================== *)
(** ** Further properties: the public address *)
(* ===================================================================== *)

Lemma external_ip_of_find {value : Type} (svcs : list (service value)) :
  external_ip_of svcs
  = match List.find is_wan svcs with
    | Some s =>
        match GetExternalIPAddress s with
        | Ok ip => Ok (Some ip)
        | Raise e => Raise e
        end
    | None => Ok None
    end.
Proof.
  induction svcs as [|s rest IH]; simpl; [done|]. by destruct (is_wan s).
Qed.

Lemma map_port_find {value : Type} (svcs : list (service value)) :
  map_port svcs
  = match List.find is_wan svcs with
    | Some s =>
        match AddPortMapping s with
        | Ok _ => Ok true
        | Raise e => Raise e
        end
    | None => Ok false
    end.
Proof.
  induction svcs as [|s rest IH]; simpl; [done|]. by destruct (is_wan s).
Qed.

(** X21.  Lines 34-79.  [setup_upnp] hands back what the gateway answered
    exactly when the first WAN service of the first device discovered
    answers [GetExternalIPAddress] with a value that is true in a
    condition and accepts the port mapping; the value is returned as the
    service gave it.  Other devices and later services are not consulted,
    and a refused mapping discards an answer that was found. *)
Theorem setup_upnp_address {value : Type} (truth : value -> bool)
    (discover : result (list (device value))) (external_ip : value) :
  (setup_upnp truth discover).1 = Some external_ip
  ↔ ∃ first others s,
      discover = Ok (first :: others) ∧
      List.find is_wan (services first) = Some s ∧
      GetExternalIPAddress s = Ok external_ip ∧
      truth external_ip = true ∧
      AddPortMapping s = Ok tt.
Proof.
  unfold setup_upnp. split.
  - destruct discover as [[|first others]|e]; [done| |done].
    rewrite external_ip_of_find, map_port_find.
    destruct (List.find is_wan (services first)) as [s|] eqn:Hfind; [|done].
    destruct (GetExternalIPAddress s) as [ip'|e] eqn:Hip; [|done].
    destruct (truth ip') eqn:Htruth; [|done]. simpl.
    destruct (AddPortMapping s) as [[]|e] eqn:Hmap; [|done]. simpl.
    intros [= <-]. by exists first, others, s.
  - intros (first & others & s & -> & Hfind & Hip & Htruth & Hmap).
    by rewrite external_ip_of_find, map_port_find, Hfind, Hip, Htruth, Hmap.
Qed.

(* ===================================================================== *)
(** ** Concrete runs of the further properties *)
(* ===================================================================== *)

Lemma reserve_id_injective_witness :
  reserve_id "Gold" 1000 = reserve_id "Gold" 1000 ∧
  "Gold" = "Gold" ∧ 1000 = 1000.
Proof.
  split; [reflexivity|].
  exact (reserve_id_injective "Gold" "Gold" 1000 1000 eq_refl).
Defined.

Lemma activation_key_errors_witness :
  Py.contains "_" "Gold" = false ∧ activation_key "Gold" = Raise IndexError.
Proof.
  split; [reflexivity|].
  exact (proj2 (proj1 (activation_key_errors "Gold")) eq_refl).
Defined.

Lemma expired_among_order_witness :
  ["Gold_1000"; "Silver_9000"] ≡ₚ ["Silver_9000"; "Gold_1000"] ∧
  expired_among ["Gold_1000"; "Silver_9000"] 10000 = Ok {["Gold_1000"]} ∧
  expired_among ["Silver_9000"; "Gold_1000"] 10000 = Ok {["Gold_1000"]}.
Proof.
  assert (["Gold_1000"; "Silver_9000"] ≡ₚ ["Silver_9000"; "Gold_1000"])
    as Hperm by apply perm_swap.
  assert (expired_among ["Gold_1000"; "Silver_9000"] 10000
          = Ok {["Gold_1000"]}) as Hok by (vm_compute; reflexivity).
  split; [exact Hperm|]. split; [exact Hok|].
  exact (proj1 (expired_among_order _ _ 10000 Hperm) _ Hok).
Defined.

Lemma cleanup_idempotent_witness :
  cleanup_expired_reserves quiet_world 0 fresh_bot = (fresh_bot, Ok tt) ∧
  cleanup_expired_reserves serving_world 0 fresh_bot = (fresh_bot, Ok tt).
Proof.
  assert (cleanup_expired_reserves quiet_world 0 fresh_bot
          = (fresh_bot, Ok tt)) as H by (vm_compute; reflexivity).
  split; [exact H|].
  exact (cleanup_idempotent quiet_world serving_world 0 fresh_bot fresh_bot H).
Defined.

Local Abbreviation acquire_at w := (warning_at w;; get_valid_token w).

Lemma tracked_set_is_active_set_witness :
  acquire_at (answering_world (Some true) sample_snapshot) authorized_bot
  = (authorized_bot, Ok (Some "T")) ∧
  last_active_reserves
    (cycle_at (answering_world (Some true) sample_snapshot) authorized_bot).1
  = spec_current_active sample_snapshot.
Proof.
  assert (acquire_at (answering_world (Some true) sample_snapshot)
            authorized_bot = (authorized_bot, Ok (Some "T"))) as H
    by (vm_compute; reflexivity).
  split; [exact H|].
  apply (tracked_set_is_active_set Py.str sample_strftime (fun s => s) "app"
           the_redirect _ authorized_bot authorized_bot authorized_bot
           (Some "T") sample_snapshot H);
    [reflexivity|vm_compute; reflexivity|reflexivity|
     exact sample_snapshot_well_formed|exact sample_snapshot_formattable].
Defined.

Lemma failed_announcement_is_not_repeated_witness :
  channel (answering_world None sample_snapshot) ≠ Some true ∧
  diff Py.str sample_strftime
    (last_active_reserves
       (cycle_at (answering_world None sample_snapshot) authorized_bot).1)
    sample_snapshot
  = Ok (spec_current_active sample_snapshot, []).
Proof.
  assert (channel (answering_world None sample_snapshot) ≠ Some true) as Hc
    by discriminate.
  split; [exact Hc|].
  apply (failed_announcement_is_not_repeated Py.str sample_strftime (fun s => s)
           "app" the_redirect (answering_world None sample_snapshot)
           authorized_bot authorized_bot authorized_bot (Some "T")
           sample_snapshot);
    [vm_compute; reflexivity|reflexivity|vm_compute; reflexivity|reflexivity|
     exact sample_snapshot_well_formed|exact sample_snapshot_formattable|
     discriminate|exact Hc].
Defined.

Lemma long_running_reserve_is_reannounced_witness :
  let b := with_last_active_reserves {[reserve_id "Gold" 1000]} fresh_bot in
  let b2 := (cleanup_expired_reserves quiet_world 10000 b).1 in
  (reserve_id "Gold" 1000 ∈ last_active_reserves b) ∧
  (reserve_id (name gold) (activated_at gold_stock)
     ∉ last_active_reserves b2) ∧
  ∃ current_active newly_activated info,
    diff Py.str sample_strftime (last_active_reserves b2) sample_snapshot
    = Ok (current_active, newly_activated) ∧
    reserve_info Py.str sample_strftime (name gold) gold_stock = Ok info ∧
    info ∈ newly_activated.
Proof.
  intros b b2.
  assert (cleanup_expired_reserves quiet_world 10000 b = (b2, Ok tt)) as H
    by (vm_compute; reflexivity).
  assert (formattable Py.str sample_strftime (last_active_reserves b2)
            sample_snapshot) as Hfmt
    by (repeat constructor; intros; vm_compute; reflexivity).
  assert (gold ∈ sample_snapshot) as Hin by (by left).
  assert (activated_at gold_stock < 10000 - 7200) as Hold by (simpl; lia).
  split; [unfold b; simpl; by apply elem_of_singleton|].
  exact (long_running_reserve_is_reannounced Py.str sample_strftime quiet_world 10000
           b b2 sample_snapshot gold gold_stock [] H
           sample_snapshot_well_formed Hfmt Hin eq_refl eq_refl eq_refl Hold).
Defined.

Lemma cycle_keeps_reserves_in_sync_witness :
  disk_ok serving_world = true ∧
  reserves_in_sync authorized_bot ∧
  reserves_in_sync (cycle_at serving_world authorized_bot).1.
Proof.
  split; [reflexivity|]. split; [reflexivity|].
  exact (cycle_keeps_reserves_in_sync Py.str sample_strftime (fun s => s) "app"
           the_redirect serving_world authorized_bot eq_refl eq_refl).
Defined.

Lemma cycle_keeps_tokens_in_sync_witness :
  disk_ok quiet_world = true ∧
  prolongate_well_formed quiet_world ∧
  tokens_in_sync fresh_bot ∧
  tokens_in_sync (cycle_at quiet_world fresh_bot).1.
Proof.
  split; [reflexivity|]. split; [exact I|]. split; [reflexivity|].
  exact (cycle_keeps_tokens_in_sync Py.str sample_strftime (fun s => s) "app"
           the_redirect quiet_world fresh_bot eq_refl I eq_refl).
Defined.

Lemma failed_write_is_not_retried_witness :
  disk_ok readonly_world = false ∧
  ({[reserve_id "Gold" 1000]} : gset string)
    ≠ last_active_reserves fresh_bot ∧
  ∃ b', update_tracking readonly_world {[reserve_id "Gold" 1000]} fresh_bot
        = (b', Ok tt) ∧
    last_active_reserves b' = {[reserve_id "Gold" 1000]} ∧
    reserves_state_file b' = Broken ∧
    trace b' = (trace fresh_bot ++
                [WriteReserves {[reserve_id "Gold" 1000]};
                 Log ErrorSavingReserves])%list ∧
    update_tracking serving_world {[reserve_id "Gold" 1000]} b' = (b', Ok tt).
Proof.
  assert (({[reserve_id "Gold" 1000]} : gset string)
            ≠ last_active_reserves fresh_bot) as Hne.
  { simpl. intros Heq.
    apply (not_elem_of_empty (C:=gset string) (reserve_id "Gold" 1000)).
    rewrite <- Heq. by apply elem_of_singleton. }
  split; [reflexivity|]. split; [exact Hne|].
  exact (failed_write_is_not_retried readonly_world serving_world _ fresh_bot
           eq_refl Hne).
Defined.

Lemma expired_credential_notifies_twice_witness :
  acquire_at serving_world expiring_bot
  = ((acquire_at serving_world expiring_bot).1, Ok None) ∧
  admin_messages (trace (cycle_at serving_world expiring_bot).1)
  = [ExpiryWarning ((1700000100 - 1700000000) ÷ 3600)
       (full_auth_url (fun s => s) "app" the_redirect);
     NeedsReauthorization
       (full_auth_url (fun s => s) "app" the_redirect)].
Proof.
  assert (acquire_at serving_world expiring_bot
          = ((acquire_at serving_world expiring_bot).1, Ok None)) as H
    by (vm_compute; reflexivity).
  assert (1700000100 ≠ 0) as Hne by discriminate.
  assert (1700000100 - clock_expiry serving_world < 86400) as Hlt
    by (simpl; lia).
  split; [exact H|].
  exact (expired_credential_notifies_twice Py.str sample_strftime (fun s => s) "app"
           the_redirect serving_world expiring_bot _ None 1700000100
           eq_refl Hne Hlt H eq_refl).
Defined.

Lemma unparsable_id_stops_polling_witness :
  let b := with_last_active_reserves {["Gold"]} authorized_bot in
  "Gold" ∈ last_active_reserves b ∧
  activation_key "Gold" = Raise IndexError ∧
  reserve_requests
    (trace (run_cycles Py.str sample_strftime (fun s => s) "app" the_redirect
              [answering_world (Some true) sample_snapshot; serving_world] b))
  = [].
Proof.
  intros b.
  assert ("Gold" ∈ last_active_reserves b) as Hin
    by (unfold b; simpl; by apply elem_of_singleton).
  split; [exact Hin|]. split; [reflexivity|].
  exact (proj2 (unparsable_id_stops_polling Py.str sample_strftime (fun s => s) "app"
                  the_redirect
                  [answering_world (Some true) sample_snapshot; serving_world]
                  b "Gold" IndexError Hin eq_refl)).
Defined.

Lemma underscored_name_stops_polling_witness :
  let w := answering_world (Some true) underscored_snapshot in
  let b' := (cycle_at w authorized_bot).1 in
  reserve_id (name payments) (activated_at payments_stock)
    ∈ last_active_reserves b' ∧
  reserve_requests
    (trace (run_cycles Py.str sample_strftime (fun s => s) "app" the_redirect
              [w; w; w] b'))
  = reserve_requests (trace b').
Proof.
  intros w.
  assert (acquire_at w authorized_bot = (authorized_bot, Ok (Some "T")))
    as H1 by (vm_compute; reflexivity).
  assert (cleanup_expired_reserves w (clock_cleanup w) authorized_bot
          = (authorized_bot, Ok tt)) as H2 by (vm_compute; reflexivity).
  assert (Forall well_formed underscored_snapshot) as Hwf
    by (repeat constructor; done).
  assert (payments ∈ underscored_snapshot) as Hin by (by left).
  assert (formattable Py.str sample_strftime
            (last_active_reserves authorized_bot) underscored_snapshot)
    as Hfmt by (repeat constructor; intros; vm_compute; reflexivity).
  exact (underscored_name_stops_polling Py.str sample_strftime (fun s => s) "app"
           the_redirect w authorized_bot authorized_bot authorized_bot
           (Some "T") underscored_snapshot payments payments_stock []
           "Battle" "Payments" [w; w; w]
           H1 eq_refl H2 eq_refl Hwf Hfmt Hin eq_refl eq_refl eq_refl
           eq_refl eq_refl).
Defined.

Lemma new_reserves_go_out_in_one_message_witness :
  channel_messages
    (trace (cycle_at (answering_world (Some true) sample_snapshot)
              authorized_bot).1)
  = [ announcement_header +:+
      "**Gold** (Level 3)" +:+ newline +:+ "• 2x for random" +:+ newline +:+
      "• Active until: 5000" ].
Proof.
  apply (new_reserves_go_out_in_one_message Py.str sample_strftime (fun s => s) "app"
           the_redirect (answering_world (Some true) sample_snapshot)
           authorized_bot authorized_bot authorized_bot (Some "T")
           sample_snapshot);
    [vm_compute; reflexivity|reflexivity|vm_compute; reflexivity|reflexivity|
     exact sample_snapshot_well_formed|exact sample_snapshot_formattable].
Defined.

Lemma refresh_partial_answer_witness :
  ∃ b' key,
    refresh_access_token
      (prolonging_world {| r_status := Some "ok"; r_data := None |})
      authorized_bot = (b', Raise (KeyError key)) ∧
    token_file b' = token_file authorized_bot ∧
    auth b' = auth authorized_bot.
Proof.
  destruct (refresh_partial_answer
              (prolonging_world {| r_status := Some "ok"; r_data := None |})
              authorized_bot 200 None eq_refl)
    as (b' & key & Hrun & Hf & He & Ha & Hr); [discriminate|].
  exists b', key. split; [exact Hrun|]. split; [exact Hf|].
  destruct (auth b') as [a r e]. simpl in *. by rewrite He, Ha, Hr.
Defined.

Lemma refreshed_token_is_reused_witness :
  let w := prolonging_world (prolongate_ok "T2" "R2" 86400) in
  let b' := (refresh_access_token w authorized_bot).1 in
  refresh_access_token w authorized_bot = (b', Ok tt) ∧
  get_valid_token serving_world b' = (b', Ok (Some "T2")).
Proof.
  intros w b'.
  assert (refresh_access_token w authorized_bot = (b', Ok tt)) as H
    by (vm_compute; reflexivity).
  split; [exact H|].
  apply (refreshed_token_is_reused w serving_world authorized_bot b' 200
           "T2" "R2" 86400 eq_refl H); [discriminate|simpl; lia|simpl; lia].
Defined.

Lemma callback_with_bad_expiry_half_stores_witness :
  callback_expiry serving_world garbled_request = None ∧
  ∃ b' answer,
    callback_at serving_world garbled_request authorized_bot
    = (b', Ok answer) ∧
    http_status answer = 500 ∧
    auth b' = {| access_token := Some "T2"; refresh_token := Some "R2";
                 expires_at := Some 2000000000 |} ∧
    token_file b' = NoFile.
Proof.
  split; [reflexivity|].
  destruct (callback_with_bad_expiry_half_stores Py.str sample_strftime (fun s => s)
              "app" the_redirect serving_world garbled_request authorized_bot
              eq_refl eq_refl eq_refl)
    as (b' & answer & Hrun & Hst & Ha & Hr & He & Hf & _).
  exists b', answer. split; [exact Hrun|]. split; [exact Hst|].
  split; [|exact Hf].
  destruct (auth b') as [a r e]. simpl in *. by rewrite Ha, Hr, He.
Defined.

Lemma callback_cycle_uses_new_token_witness :
  ∃ b' answer,
    callback_at serving_world sample_request fresh_bot = (b', Ok answer) ∧
    http_status answer = 200 ∧
    auth b' = callback_credential sample_request 2000000000 ∧
    reserve_requests (trace b') = [Some "T"].
Proof.
  apply (callback_cycle_uses_new_token Py.str sample_strftime (fun s => s) "app"
           the_redirect serving_world sample_request fresh_bot 2000000000
           true);
    [reflexivity|reflexivity|reflexivity|simpl; lia|simpl; lia|reflexivity|].
  intros i Hi. by apply elem_of_empty in Hi.
Defined.
